(** * Data-to-video converter with audio side channel: codec model

    Shallow embedding of [advanced_data_to_video.py]
    (class [AdvancedDataToVideoConverter]) and the properties of its
    per-frame codec: capacity planning, differential + run-length coding
    of the video payload, the audio buffer layout and the encode / decode
    passes.

    Conventions.
    - A Python [int] is a [Z]; [len l] is [Z.of_nat (length l)].
    - A [bytes] object or a [uint8] array is a [list Z] with entries in
      [0, 256); an [int16] array is a [list Z] with entries in
      [-32768, 32768).
    - [l[:n]] and [l[a:b]] are [firstn] / [skipn] at [Z.to_nat]; this is
      Python's slicing for the non-negative bounds that arise from a
      non-negative geometry.
    - Exceptions are the [Raise] branch of [result]. *)

From Stdlib Require Import Ascii String.
From Stdlib Require Import ZArith List Lia Bool QArith.
From Stdlib Require DecimalPos DecimalZ.
Import ListNotations.
Open Scope Z_scope.

Set Implicit Arguments.

(** ** Python / numpy primitives *)

Inductive exn : Type :=
| ZeroDivisionError
| ValueError
| IndexError
| FileNotFoundError
| KeyError.

Inductive result (A : Type) : Type :=
| Ok (a : A)
| Raise (e : exn).

Arguments Ok {A} a.
Arguments Raise {A} e.

Definition bind {A B : Type} (m : result A) (k : A -> result B) : result B :=
  match m with
  | Ok a => k a
  | Raise e => Raise e
  end.

Notation "x <- m ;; k" := (bind m (fun x => k))
  (at level 61, m at next level, right associativity).

Definition len {A : Type} (l : list A) : Z := Z.of_nat (length l).

(** [l[:n]] for [0 <= n]. *)
Definition take {A : Type} (n : Z) (l : list A) : list A :=
  firstn (Z.to_nat n) l.

(** [l[n:]] for [0 <= n]. *)
Definition drop {A : Type} (n : Z) (l : list A) : list A :=
  skipn (Z.to_nat n) l.

(** [l[a:b]] for [0 <= a], [0 <= b]. *)
Definition slice {A : Type} (a b : Z) (l : list A) : list A :=
  drop a (take b l).

(** [b'\x00' * n], also [np.pad(a, (0, n))]'s padding: empty when
    [n <= 0]. *)
Definition zeros (n : Z) : list Z := repeat 0 (Z.to_nat n).

(** [range(n)]. *)
Definition range (n : Z) : list Z := map Z.of_nat (seq 0 (Z.to_nat n)).

(** [math.ceil(a / b)] for [b <> 0] (the float quotient is exact enough
    for every file that fits in memory). *)
Definition ceil_div (a b : Z) : Z := - ((- a) / b).

(** ** Run-length coding *)

(** Inner loop of [_apply_rle]:
    [while i + count < len(data) and data[i] == data[i + count]
           and count < 255: count += 1].
    [rest] is [data[i + count:]]. *)
Fixpoint run_count (x : Z) (rest : list Z) (count : nat) : nat :=
  match rest with
  | y :: rest' =>
      if (x =? y) && (Nat.ltb count 255)
      then run_count x rest' (S count)
      else count
  | [] => count
  end.

(** Outer loop of [_apply_rle]; [data] is [data[i:]] and the recursive
    call is the next iteration after [i += count].  The loop runs at most
    [len(data)] times, which is the fuel [_apply_rle] gives it. *)
Fixpoint apply_rle_loop (fuel : nat) (data : list Z) : list Z :=
  match fuel with
  | O => []
  | S fuel' =>
      match data with
      | [] => []
      | x :: rest =>
          let count := run_count x rest 1 in
          (if Nat.ltb 3 count
           then [255; x; Z.of_nat count]
           else repeat x count)
          ++ apply_rle_loop fuel' (skipn count data)
      end
  end.

Definition _apply_rle (data : list Z) : list Z :=
  apply_rle_loop (length data) data.

(** [_decode_rle]: the list is [data[i:]]. *)
Fixpoint _decode_rle (data : list Z) : list Z :=
  match data with
  | [] => []
  | b :: rest =>
      match rest with
      | value :: count :: rest' =>
          if b =? 255
          then repeat value (Z.to_nat count) ++ _decode_rle rest'
          else b :: _decode_rle rest
      | _ => b :: _decode_rle rest
      end
  end.

(** The runs [(value, count)] that the scan of [_apply_rle] walks
    through, in order: the same loop with the output left out. *)
Fixpoint rle_runs_loop (fuel : nat) (data : list Z) : list (Z * nat) :=
  match fuel with
  | O => []
  | S fuel' =>
      match data with
      | [] => []
      | x :: rest =>
          let count := run_count x rest 1 in
          (x, count) :: rle_runs_loop fuel' (skipn count data)
      end
  end.

Definition rle_runs (data : list Z) : list (Z * nat) :=
  rle_runs_loop (length data) data.

(** What the run-length coder writes for one run. *)
Definition emit_run (r : Z * nat) : list Z :=
  if Nat.leb 4 (snd r) && Nat.leb (snd r) 255
  then [255; fst r; Z.of_nat (snd r)]
  else repeat (fst r) (snd r).

(** The bytes a run stands for. *)
Definition expand_run (r : Z * nat) : list Z := repeat (fst r) (snd r).

(** Runs are maximal up to the cap of 255: a run is followed by a run of
    the same value only when it is 255 long. *)
Fixpoint maximal_runs (rs : list (Z * nat)) : Prop :=
  match rs with
  | [] => True
  | r :: rs' =>
      (1 <= snd r <= 255)%nat /\
      match rs' with
      | [] => True
      | r' :: _ => fst r' <> fst r \/ snd r = 255%nat
      end /\
      maximal_runs rs'
  end.

(** The value 255 occurs in [data] only in runs that are written as an
    escape triple: no run of at most three 255s is copied literally. *)
Definition no_literal_255 (data : list Z) : Prop :=
  Forall (fun r => fst r = 255 -> (3 < snd r)%nat) (rle_runs data).

(** ** Differential coding *)

(** [np.diff] on a [uint8] array: consecutive differences with
    wrap-around, [prev] being the element before the head of the list. *)
Fixpoint diff_from (prev : Z) (l : list Z) : list Z :=
  match l with
  | [] => []
  | x :: r => ((x - prev) mod 256) :: diff_from x r
  end.

(** [np.diff(data_array, prepend=data_array[0])]. *)
Definition np_diff_prepend (data_array : list Z) : list Z :=
  match data_array with
  | [] => []
  | x :: _ => diff_from x data_array
  end.

(** Lines 59-63 of [create_compression_matrix]: the differential
    sequence that is handed to the run-length coder. *)
Definition differential (data_array : list Z) : list Z :=
  if 1 <? len data_array then np_diff_prepend data_array else data_array.

(** Wrap-around of a signed [w]-bit numpy integer. *)
Definition to_int32 (z : Z) : Z := (z + 2147483648) mod 4294967296 - 2147483648.
Definition to_int16 (z : Z) : Z := (z + 32768) mod 65536 - 32768.

(** [np.cumsum(a, dtype=np.int32)], [acc] being the sum so far. *)
Fixpoint cumsum_from (acc : Z) (l : list Z) : list Z :=
  match l with
  | [] => []
  | x :: r => let acc' := to_int32 (acc + x) in acc' :: cumsum_from acc' r
  end.

Definition np_cumsum_int32 (l : list Z) : list Z := cumsum_from 0 l.

(** [np.clip(v, lo, hi)]. *)
Definition np_clip (lo hi v : Z) : Z := Z.min (Z.max v lo) hi.

(** Lines 377-384 of [frames_with_audio_to_file]: the reversal of the
    differential coding. *)
Definition differential_decode (base_value : Z) (decompressed : list Z)
  : list Z :=
  if 0 <? len decompressed then
    let original_data := np_cumsum_int32 decompressed in
    let original_data := base_value :: tl original_data in
    map (fun v => np_clip 0 255 v mod 256) original_data
  else decompressed.

(** ** 16-bit sample buffers *)

(** [np.frombuffer(b, dtype=np.int16)] (little endian); numpy raises
    [ValueError] when the buffer is not a whole number of samples. *)
Fixpoint np_frombuffer_int16 (b : list Z) : result (list Z) :=
  match b with
  | [] => Ok []
  | lo :: hi :: r =>
      rest <- np_frombuffer_int16 r ;;
      Ok (to_int16 (lo + 256 * hi) :: rest)
  | [_] => Raise ValueError
  end.

(** [a.tobytes()] of an [int16] array. *)
Definition int16_tobytes (a : list Z) : list Z :=
  flat_map (fun s => [s mod 256; (s / 256) mod 256]) a.

(** [np.concatenate(arrays)]: [ValueError] ("need at least one array to
    concatenate") on the empty list. *)
Definition np_concatenate (arrays : list (list Z)) : result (list Z) :=
  match arrays with
  | [] => Raise ValueError
  | _ => Ok (concat arrays)
  end.

(** ** The converter *)

(** Constructor arguments of [AdvancedDataToVideoConverter]. *)
Record Converter : Type := {
  width : Z;
  height : Z;
  sample_rate : Z;
  audio_channels : Z
}.

(** [AdvancedDataToVideoConverter()] with its default arguments. *)
Definition default_converter : Converter :=
  {| width := 1920; height := 1080; sample_rate := 48000;
     audio_channels := 2 |}.

(** Derived attributes set by [__init__]. *)
Definition pixels_per_frame (c : Converter) : Z := width c * height c.
Definition bytes_per_frame_video (c : Converter) : Z := pixels_per_frame c * 3.
Definition samples_per_frame (c : Converter) : Z := sample_rate c / 30.
Definition bytes_per_frame_audio (c : Converter) : Z :=
  samples_per_frame c * audio_channels c * 2.
Definition bytes_per_frame_total (c : Converter) : Z :=
  bytes_per_frame_video c + bytes_per_frame_audio c.

(** A geometry the converter is meant for: every dimension positive. *)
Definition valid_geometry (c : Converter) : Prop :=
  0 < width c /\ 0 < height c /\ 0 < sample_rate c /\ 0 < audio_channels c.

(** The ['compression'] dictionary of a frame. *)
Record CompressionMeta : Type := {
  original_length : Z;
  compressed_length : Z;
  compression_ratio : Q;
  matrix_size : Z;
  differential_base : Z
}.

(** One entry of [metadata['frames']]. *)
Record FrameMeta : Type := {
  frame_idx : Z;
  video_bytes : Z;
  audio_bytes : Z;
  compression : CompressionMeta
}.

(** [metadata.json] (the file name entry, which no code reads back, is
    left out). *)
Record Metadata : Type := {
  original_size : Z;
  md_width : Z;
  md_height : Z;
  md_sample_rate : Z;
  md_audio_channels : Z;
  num_frames : Z;
  fps : Z;
  frames : list FrameMeta
}.

(** The output directory: [frame_%06d.png] by index (PNG stores the RGB
    bytes losslessly), [audio.raw] as its [int16] samples, and
    [metadata.json]. *)
Record Artifacts : Type := {
  frame_files : list (list Z);
  audio_raw : list Z;
  metadata_json : Metadata
}.

(** [create_compression_matrix(data_chunk, matrix_size)]: the compressed
    bytes and the metadata.  The third component of the source's result,
    the cosine matrix, is computed in floating point from [matrix_size]
    alone; it reaches the rest of the code only through
    [matrix_to_audio], see [matrix_audio] below.  The exact quotient
    stands for the float [compression_ratio]. *)
Definition create_compression_matrix (data_chunk : list Z) (ms : Z)
  : list Z * CompressionMeta :=
  let data_array := data_chunk in
  let compressed := _apply_rle (differential data_array) in
  (compressed,
   {| original_length := len data_array;
      compressed_length := len compressed;
      compression_ratio :=
        if 0 <? len data_array
        then Qmake (len compressed) (Z.to_pos (len data_array))
        else 1%Q;
      matrix_size := ms;
      differential_base := match data_array with x :: _ => x | [] => 0 end |}).

(** What one iteration of the encode loop produces. *)
Record FrameOut : Type := {
  fo_pixels : list Z;
  fo_samples : list Z;
  fo_meta : FrameMeta
}.

(** State of the encode loop. *)
Record EncState : Type := {
  saved_frames : list (list Z);
  all_audio_data : list (list Z);
  frames_metadata : list FrameMeta
}.

(** The empty lists the encode loop starts from. *)
Definition enc_init : EncState :=
  {| saved_frames := []; all_audio_data := []; frames_metadata := [] |}.

(** State of the decode loop. *)
Record DecState : Type := {
  all_data : list Z;
  audio_offset : Z
}.

(** [all_data = bytearray()], [audio_offset = 0]. *)
Definition dec_init : DecState := {| all_data := []; audio_offset := 0 |}.

(** [audio_to_matrix(audio_bytes, matrix_size)]: the samples that are
    reshaped into the matrix (their float rescaling is not used by any
    caller); [reshape] raises [ValueError] when fewer than
    [matrix_size * matrix_size] samples are there. *)
Definition audio_to_matrix (audio_bytes : list Z) (ms : Z) : result (list Z) :=
  samples <- np_frombuffer_int16 audio_bytes ;;
  let m := take (ms * ms) samples in
  if len m =? ms * ms then Ok m else Raise ValueError.

Section Codec.

(** [matrix_to_audio(encoding_matrix)]: the serialised cosine matrix, a
    byte string that depends on nothing but [matrix_size = 16]; it is
    [2 * 16 * 16] bytes long. *)
Variable matrix_audio : list Z.

Variable c : Converter.

(** *** Encode pass: [file_to_frames_with_audio] *)

Section Encode.

Variable data : list Z.

Definition frame_total_data (frame_idx : Z) : list Z :=
  let file_size := len data in
  let start_idx := frame_idx * bytes_per_frame_total c in
  let end_idx := Z.min (start_idx + bytes_per_frame_total c) file_size in
  slice start_idx end_idx data.

Definition video_data_size (frame_idx : Z) : Z :=
  Z.min (len (frame_total_data frame_idx)) (bytes_per_frame_video c).

Definition video_data (frame_idx : Z) : list Z :=
  take (video_data_size frame_idx) (frame_total_data frame_idx).

Definition audio_data (frame_idx : Z) : list Z :=
  if video_data_size frame_idx <? len (frame_total_data frame_idx)
  then drop (video_data_size frame_idx) (frame_total_data frame_idx)
  else [].

(** Lines 255-259: pad or cut the compressed bytes to the frame size. *)
Definition fit_video (compressed_video : list Z) : list Z :=
  if len compressed_video <? bytes_per_frame_video c
  then compressed_video
       ++ zeros (bytes_per_frame_video c - len compressed_video)
  else take (bytes_per_frame_video c) compressed_video.

(** Lines 264-266. *)
Definition full_audio (audio : list Z) : list Z :=
  let audio_data_padded :=
    audio ++ zeros (bytes_per_frame_audio c - len matrix_audio - len audio) in
  matrix_audio ++ audio_data_padded.

(** Body of the loop over [range(num_frames)]. *)
Definition encode_frame (frame_idx : Z) : result FrameOut :=
  let '(compressed_video, compression_meta) :=
    create_compression_matrix (video_data frame_idx) 16 in
  audio_samples <-
    np_frombuffer_int16
      (take (bytes_per_frame_audio c) (full_audio (audio_data frame_idx))) ;;
  Ok {| fo_pixels := fit_video compressed_video;
        fo_samples := audio_samples;
        fo_meta := {| frame_idx := frame_idx;
                      video_bytes := video_data_size frame_idx;
                      audio_bytes := len (audio_data frame_idx);
                      compression := compression_meta |} |}.

(** The three things an iteration hands on, by name: the frame image,
    the audio bytes before they are read as samples, and the metadata
    entry. *)
Definition frame_pixels (frame_idx : Z) : list Z :=
  fit_video (fst (create_compression_matrix (video_data frame_idx) 16)).

Definition frame_audio_buffer (frame_idx : Z) : list Z :=
  take (bytes_per_frame_audio c) (full_audio (audio_data frame_idx)).

Definition frame_meta (frame_idx : Z) : FrameMeta :=
  {| frame_idx := frame_idx;
     video_bytes := video_data_size frame_idx;
     audio_bytes := len (audio_data frame_idx);
     compression := snd (create_compression_matrix (video_data frame_idx) 16) |}.

(** [a] is what [np.frombuffer] reads from the audio buffer of frame
    [k]. *)
Definition samples_of (k : Z) (a : list Z) : Prop :=
  np_frombuffer_int16 (frame_audio_buffer k) = Ok a.

Fixpoint encode_loop (idxs : list Z) (st : EncState) : result EncState :=
  match idxs with
  | [] => Ok st
  | frame_idx :: idxs' =>
      fo <- encode_frame frame_idx ;;
      encode_loop idxs'
        {| saved_frames := saved_frames st ++ [fo_pixels fo];
           all_audio_data := all_audio_data st ++ [fo_samples fo];
           frames_metadata := frames_metadata st ++ [fo_meta fo] |}
  end.

(** [num_frames = math.ceil(file_size / self.bytes_per_frame_total)]. *)
Definition encode_num_frames : Z :=
  ceil_div (len data) (bytes_per_frame_total c).

Definition file_to_frames_with_audio (fps_arg : Z) : result Artifacts :=
  let file_size := len data in
  if bytes_per_frame_total c =? 0 then Raise ZeroDivisionError else
  let n := encode_num_frames in
  st <- encode_loop (range n) enc_init ;;
  combined_audio <- np_concatenate (all_audio_data st) ;;
  Ok {| frame_files := saved_frames st;
        audio_raw := combined_audio;
        metadata_json :=
          {| original_size := file_size;
             md_width := width c;
             md_height := height c;
             md_sample_rate := sample_rate c;
             md_audio_channels := audio_channels c;
             num_frames := n;
             fps := fps_arg;
             frames := frames_metadata st |} |}.

End Encode.

(** *** Decode pass: [frames_with_audio_to_file] *)

(** [metadata['frames'][frame_idx]] / [Image.open(frame_filename)]. *)
Definition lookup {A : Type} (e : exn) (l : list A) (i : Z) : result A :=
  match nth_error l (Z.to_nat i) with
  | Some a => Ok a
  | None => Raise e
  end.

(** Line 363: the bytes handed to [_decode_rle]. *)
Definition compressed_bytes (frame_meta : FrameMeta) (frame_array : list Z)
  : list Z :=
  take (video_bytes frame_meta) frame_array.

(** Body of the decode loop. *)
Definition decode_frame (dir : Artifacts) (st : DecState) (frame_idx : Z)
  : result DecState :=
  frame_meta <- lookup IndexError (frames (metadata_json dir)) frame_idx ;;
  frame_array <- lookup FileNotFoundError (frame_files dir) frame_idx ;;
  let audio := audio_raw dir in
  let ms := matrix_size (compression frame_meta) in
  let samples_for_matrix := ms * ms in
  let matrix_audio_samples :=
    slice (audio_offset st) (audio_offset st + samples_for_matrix) audio in
  _ <- audio_to_matrix (int16_tobytes matrix_audio_samples) ms ;;
  let decompressed := _decode_rle (compressed_bytes frame_meta frame_array) in
  let original_data :=
    differential_decode (differential_base (compression frame_meta))
      decompressed in
  let video := take (original_length (compression frame_meta)) original_data in
  let audio_start := audio_offset st + samples_for_matrix in
  let audio_end := audio_start + audio_bytes frame_meta / 2 in
  let frame_audio_samples := slice audio_start audio_end audio in
  let frame_audio_bytes :=
    take (audio_bytes frame_meta) (int16_tobytes frame_audio_samples) in
  Ok {| all_data := all_data st ++ video ++ frame_audio_bytes;
        audio_offset := audio_offset st + samples_per_frame c |}.

Fixpoint decode_loop (dir : Artifacts) (idxs : list Z) (st : DecState)
  : result DecState :=
  match idxs with
  | [] => Ok st
  | frame_idx :: idxs' =>
      st' <- decode_frame dir st frame_idx ;;
      decode_loop dir idxs' st'
  end.

(** The reconstructed file and the outcome of the size verification. *)
Definition frames_with_audio_to_file (dir : Artifacts) : result (list Z * bool) :=
  let md := metadata_json dir in
  st <- decode_loop dir (range (num_frames md)) dec_init ;;
  let out := take (original_size md) (all_data st) in
  Ok (out, len out =? original_size md).

(** Encode, then decode what was written. *)
Definition round_trip (data : list Z) (fps_arg : Z) : result (list Z * bool) :=
  dir <- file_to_frames_with_audio data fps_arg ;;
  frames_with_audio_to_file dir.

End Codec.

(** ** Inputs for the examples *)

(** A small geometry: 6 video bytes and 520 audio bytes per frame (260
    mono samples), 512 of which the matrix takes. *)
Definition example_converter : Converter :=
  {| width := 2; height := 1; sample_rate := 7800; audio_channels := 1 |}.

(** A stand-in for the 512 matrix bytes. *)
Definition example_matrix_audio : list Z := zeros 512.

(** Six equal video bytes and four overflow bytes. *)
Definition example_data : list Z := [5; 5; 5; 5; 5; 5; 9; 8; 7; 6].

(** What the encode pass writes for them. *)
Definition example_dir : Artifacts :=
  Eval vm_compute in
    match file_to_frames_with_audio example_matrix_audio example_converter
            example_data 30 with
    | Ok dir => dir
    | Raise _ =>
        {| frame_files := []; audio_raw := [];
           metadata_json :=
             {| original_size := 0; md_width := 0; md_height := 0;
                md_sample_rate := 0; md_audio_channels := 0; num_frames := 0;
                fps := 0; frames := [] |} |}
    end.

(** [bytes([65] * 10000)]. *)
Definition repeated_A : list Z := repeat 65 (Z.to_nat 10000).

(** The same with [fps = 60]. *)
Definition example_dir_60 : Artifacts :=
  Eval vm_compute in
    match file_to_frames_with_audio example_matrix_audio example_converter
            example_data 60 with
    | Ok dir => dir
    | Raise _ => example_dir
    end.

(** ** Text: Python [str] and the text file [metadata.txt] *)

(** A [str] whose characters are code points below 256; [metadata.txt]
    is written and read in one encoding that has them (UTF-8, Latin-1),
    on a POSIX system. *)
Definition pystr : Type := list ascii.

Definition lit (s : string) : pystr := list_ascii_of_string s.

Definition LF : ascii := ascii_of_N 10.
Definition CR : ascii := ascii_of_N 13.

(** [c.isspace()] for a code point below 256: the characters that
    [str.strip()] removes. *)
Definition is_space (c : ascii) : bool :=
  let n := N_of_ascii c in
  ((9 <=? n) && (n <=? 13) || (28 <=? n) && (n <=? 32)
   || (n =? 133) || (n =? 160))%N.

(** [s.lstrip()]. *)
Fixpoint lstrip (s : pystr) : pystr :=
  match s with
  | [] => []
  | c :: r => if is_space c then lstrip r else s
  end.

(** [s.rstrip()]. *)
Definition rstrip (s : pystr) : pystr := rev (lstrip (rev s)).

(** [s.strip()]. *)
Definition py_strip (s : pystr) : pystr := rstrip (lstrip s).

(** [s.split(': ', 1)] when it has two parts: the text before and after
    the first [': '].  [None] stands for the one-element list that the
    unpacking [key, value = ...] rejects. *)
Fixpoint split_colon_space (s : pystr) : option (pystr * pystr) :=
  match s with
  | [] => None
  | c :: r =>
      match r with
      | c2 :: r2 =>
          if Ascii.eqb c ":" && Ascii.eqb c2 " " then Some ([], r2)
          else match split_colon_space r with
               | Some (key, value) => Some (c :: key, value)
               | None => None
               end
      | [] => None
      end
  end.

(** The lines that iterating over a text file gives, without their
    terminators (which [strip] removes anyway): a line ends at ["\n"],
    ["\r\n"] or ["\r"] (universal newlines), and text after the last
    terminator is a last line.  [cur] is the line read so far. *)
Fixpoint file_lines_from (cur : pystr) (s : pystr) : list pystr :=
  match s with
  | [] => match cur with [] => [] | _ => [cur] end
  | c :: r =>
      if Ascii.eqb c LF then cur :: file_lines_from [] r
      else if Ascii.eqb c CR then
        match r with
        | c2 :: r2 =>
            if Ascii.eqb c2 LF then cur :: file_lines_from [] r2
            else cur :: file_lines_from [] r
        | [] => cur :: file_lines_from [] r
        end
      else file_lines_from (cur ++ [c]) r
  end.

Definition file_lines (s : pystr) : list pystr := file_lines_from [] s.

(** [os.path.basename(p)] (POSIX): what follows the last ['/'];
    [name] is what was read since the last ['/']. *)
Fixpoint basename_from (name : pystr) (p : pystr) : pystr :=
  match p with
  | [] => name
  | c :: r =>
      if Ascii.eqb c "/" then basename_from [] r
      else basename_from (name ++ [c]) r
  end.

Definition basename (p : pystr) : pystr := basename_from [] p.

(** The decimal digits of [str(z)]. *)
Fixpoint digits_of_uint (u : Decimal.uint) : pystr :=
  match u with
  | Decimal.Nil => []
  | Decimal.D0 d => "0"%char :: digits_of_uint d
  | Decimal.D1 d => "1"%char :: digits_of_uint d
  | Decimal.D2 d => "2"%char :: digits_of_uint d
  | Decimal.D3 d => "3"%char :: digits_of_uint d
  | Decimal.D4 d => "4"%char :: digits_of_uint d
  | Decimal.D5 d => "5"%char :: digits_of_uint d
  | Decimal.D6 d => "6"%char :: digits_of_uint d
  | Decimal.D7 d => "7"%char :: digits_of_uint d
  | Decimal.D8 d => "8"%char :: digits_of_uint d
  | Decimal.D9 d => "9"%char :: digits_of_uint d
  end.

(** [str(z)] of an [int], which is what the f-string writes. *)
Definition py_str (z : Z) : pystr :=
  match Z.to_int z with
  | Decimal.Pos u => digits_of_uint u
  | Decimal.Neg u => "-"%char :: digits_of_uint u
  end.

Definition digit_of_char (c : ascii) : option (Decimal.uint -> Decimal.uint) :=
  if Ascii.eqb c "0" then Some Decimal.D0
  else if Ascii.eqb c "1" then Some Decimal.D1
  else if Ascii.eqb c "2" then Some Decimal.D2
  else if Ascii.eqb c "3" then Some Decimal.D3
  else if Ascii.eqb c "4" then Some Decimal.D4
  else if Ascii.eqb c "5" then Some Decimal.D5
  else if Ascii.eqb c "6" then Some Decimal.D6
  else if Ascii.eqb c "7" then Some Decimal.D7
  else if Ascii.eqb c "8" then Some Decimal.D8
  else if Ascii.eqb c "9" then Some Decimal.D9
  else None.

(** The digits of an integer literal as [int()] accepts them: at least
    one digit, and single underscores only between digits. *)
Fixpoint parse_digits (s : pystr) : option Decimal.uint :=
  match s with
  | [] => None
  | c :: r =>
      match digit_of_char c with
      | None => None
      | Some d =>
          match r with
          | [] => Some (d Decimal.Nil)
          | c2 :: r2 =>
              if Ascii.eqb c2 "_" then option_map d (parse_digits r2)
              else option_map d (parse_digits r)
          end
      end
  end.

(** [sys.get_int_max_str_digits()]: the default limit on the number of
    digits that [int()] converts (CPython 3.11 and later). *)
Definition int_max_str_digits : Z := 4300.

(** [int(s)] of a [str]: surrounding whitespace, an optional sign and
    the digits, no more of them than the limit; [ValueError]
    otherwise. *)
Definition py_int (s : pystr) : result Z :=
  let t := py_strip s in
  let parsed :=
    match t with
    | c :: r =>
        if Ascii.eqb c "-" then option_map Decimal.Neg (parse_digits r)
        else if Ascii.eqb c "+" then option_map Decimal.Pos (parse_digits r)
        else option_map Decimal.Pos (parse_digits t)
    | [] => None
    end in
  match parsed with
  | Some d =>
      if int_max_str_digits <? Z.of_nat (Decimal.nb_digits (Decimal.abs d))
      then Raise ValueError
      else Ok (Z.of_int d)
  | None => Raise ValueError
  end.

(** [l[:n]] for any [n]: a negative bound counts from the end. *)
Definition py_prefix {A : Type} (n : Z) (l : list A) : list A :=
  if n <? 0 then firstn (length l - Z.to_nat (- n)) l
  else firstn (Z.to_nat n) l.

(** A [dict] with [str] keys and values, in insertion order. *)
Definition pydict : Type := list (pystr * pystr).

Fixpoint pystr_eqb (a b : pystr) : bool :=
  match a, b with
  | [], [] => true
  | x :: a', y :: b' => Ascii.eqb x y && pystr_eqb a' b'
  | _, _ => false
  end.

(** [d[key] = value]. *)
Fixpoint dict_set (key value : pystr) (d : pydict) : pydict :=
  match d with
  | [] => [(key, value)]
  | (k, v) :: r =>
      if pystr_eqb key k then (key, value) :: r
      else (k, v) :: dict_set key value r
  end.

(** [d[key]]. *)
Fixpoint dict_get (key : pystr) (d : pydict) : result pystr :=
  match d with
  | [] => Raise KeyError
  | (k, v) :: r => if pystr_eqb key k then Ok v else dict_get key r
  end.

(** A key as [file_to_frames] writes them: no whitespace in front, no
    colon. *)
Definition plain_key (key : pystr) : bool :=
  match key with
  | [] => false
  | c :: _ => negb (is_space c)
  end && forallb (fun c => negb (Ascii.eqb c ":")) key.

(** ** The basic converter: [data_to_video.py] *)

(** Constructor arguments of [DataToVideoConverter]. *)
Record BasicConverter : Type := {
  basic_width : Z;
  basic_height : Z
}.

(** [self.bytes_per_frame]. *)
Definition bytes_per_frame (b : BasicConverter) : Z :=
  basic_width b * basic_height b * 3.

(** The [metadata] dictionary of [file_to_frames]. *)
Record BasicMetadata : Type := {
  basic_original_filename : pystr;
  basic_original_size : Z;
  basic_md_width : Z;
  basic_md_height : Z;
  basic_num_frames : Z
}.

(** What [file_to_frames] writes: the metadata and the frame images
    [frame_000000.png], [frame_000001.png], ... in this order. *)
Record BasicArtifacts : Type := {
  basic_frame_files : list (list Z);
  basic_metadata : BasicMetadata
}.

(** A frames directory as [frames_to_file] finds it: the text of
    [metadata.txt], when there is one, and the bytes of the image
    [frame_%06d.png] for each index that has one. *)
Record FramesDir : Type := {
  metadata_txt_file : option pystr;
  frame_png : Z -> option (list Z)
}.

(** One line [f"{key}: {value}\n"] of [metadata.txt]. *)
Definition metadata_line (key value : pystr) : pystr :=
  (key ++ lit ": " ++ value) ++ [LF].

(** Lines 63-65 of [file_to_frames]: the text of [metadata.txt]. *)
Definition metadata_txt (md : BasicMetadata) : pystr :=
  metadata_line (lit "original_filename") (basic_original_filename md)
  ++ metadata_line (lit "original_size") (py_str (basic_original_size md))
  ++ metadata_line (lit "width") (py_str (basic_md_width md))
  ++ metadata_line (lit "height") (py_str (basic_md_height md))
  ++ metadata_line (lit "num_frames") (py_str (basic_num_frames md)).

(** The directory that holds what [file_to_frames] wrote (and nothing
    else). *)
Definition written_dir (a : BasicArtifacts) : FramesDir :=
  {| metadata_txt_file := Some (metadata_txt (basic_metadata a));
     frame_png := fun k =>
       if k <? 0 then None
       else nth_error (basic_frame_files a) (Z.to_nat k) |}.

Section Basic.

Variable b : BasicConverter.

(** Lines 71-79 of [file_to_frames]: the slice of the file for a frame,
    padded with zero bytes when it is short. *)
Definition basic_frame_data (data : list Z) (frame_idx : Z) : list Z :=
  let file_size := len data in
  let start_idx := frame_idx * bytes_per_frame b in
  let end_idx := Z.min (start_idx + bytes_per_frame b) file_size in
  let frame_data := slice start_idx end_idx data in
  if len frame_data <? bytes_per_frame b
  then frame_data ++ zeros (bytes_per_frame b - len frame_data)
  else frame_data.

(** The loop of [file_to_frames] over [range(num_frames)]; the state is
    the list of frame images saved so far. *)
Fixpoint basic_encode_loop (data : list Z) (idxs : list Z)
  (saved : list (list Z)) : list (list Z) :=
  match idxs with
  | [] => saved
  | frame_idx :: idxs' =>
      basic_encode_loop data idxs' (saved ++ [basic_frame_data data frame_idx])
  end.

(** [file_to_frames(input_file, output_dir)], [data] being the bytes of
    the input file: the division raises when the frame holds no bytes,
    before anything is written. *)
Definition file_to_frames (input_file : pystr) (data : list Z)
  : result BasicArtifacts :=
  let file_size := len data in
  if bytes_per_frame b =? 0 then Raise ZeroDivisionError else
  let n := ceil_div file_size (bytes_per_frame b) in
  Ok {| basic_frame_files := basic_encode_loop data (range n) [];
        basic_metadata :=
          {| basic_original_filename := basename input_file;
             basic_original_size := file_size;
             basic_md_width := basic_width b;
             basic_md_height := basic_height b;
             basic_num_frames := n |} |}.

End Basic.

(** Lines 113-116 of [frames_to_file]: the loop over the lines of
    [metadata.txt]; a line without [': '] makes the unpacking raise
    [ValueError]. *)
Fixpoint read_metadata_lines (lines : list pystr) (metadata : pydict)
  : result pydict :=
  match lines with
  | [] => Ok metadata
  | line :: rest =>
      match split_colon_space (py_strip line) with
      | Some (key, value) =>
          read_metadata_lines rest (dict_set key value metadata)
      | None => Raise ValueError
      end
  end.

(** Lines 110-119 of [frames_to_file]: [original_size] and
    [num_frames] as read from [metadata.txt]. *)
Definition read_metadata (dir : FramesDir) : result (Z * Z) :=
  txt <- match metadata_txt_file dir with
         | Some txt => Ok txt
         | None => Raise FileNotFoundError
         end ;;
  metadata <- read_metadata_lines (file_lines txt) [] ;;
  v <- dict_get (lit "original_size") metadata ;;
  original_size <- py_int v ;;
  v' <- dict_get (lit "num_frames") metadata ;;
  num_frames <- py_int v' ;;
  Ok (original_size, num_frames).

(** The loop of [frames_to_file]; the state is [all_data]. *)
Fixpoint basic_decode_loop (dir : FramesDir) (idxs : list Z)
  (all : list Z) : result (list Z) :=
  match idxs with
  | [] => Ok all
  | frame_idx :: idxs' =>
      frame_bytes <- match frame_png dir frame_idx with
                     | Some fr => Ok fr
                     | None => Raise FileNotFoundError
                     end ;;
      basic_decode_loop dir idxs' (all ++ frame_bytes)
  end.

(** [frames_to_file]: the bytes written to the output file. *)
Definition frames_to_file (dir : FramesDir) : result (list Z) :=
  md <- read_metadata dir ;;
  let '(original_size, num_frames) := md in
  all <- basic_decode_loop dir (range num_frames) [] ;;
  Ok (py_prefix original_size all).

(** A file name without line breaks ... *)
Definition no_line_break (s : pystr) : Prop := ~ In LF s /\ ~ In CR s.

(** ... and with a character that is not whitespace. *)
Definition not_blank (s : pystr) : Prop :=
  exists c, In c s /\ is_space c = false.

(** [np.clip(v, 0, 255).astype(np.uint8)] on one entry, as in
    [differential_decode]. *)
Definition clip_byte (v : Z) : Z := np_clip 0 255 v mod 256.

(** The 256 matrix samples that the decode loop reads for frame [k], at
    its cursor [k * samples_per_frame], are within the
    [num_frames * samples_per_frame * audio_channels] samples of
    [audio.raw]. *)
Definition matrix_in_audio (c : Converter) (data : list Z) (k : Z) : Prop :=
  k * samples_per_frame c + 256
  <= encode_num_frames c data * (samples_per_frame c * audio_channels c).

(** ** Predicates on byte sequences *)

(** Every entry is a byte. *)
Definition all_bytes (l : list Z) : Prop := Forall (fun x => 0 <= x < 256) l.

(** No entry is smaller than the one before it. *)
Fixpoint nondecreasing (l : list Z) : Prop :=
  match l with
  | [] => True
  | x :: r =>
      match r with
      | [] => True
      | y :: _ => x <= y
      end /\ nondecreasing r
  end.

Unset Implicit Arguments.

(** * Properties *)

(** ** The model on small inputs *)

Example apply_rle_example :
  _apply_rle [0; 0; 0; 0; 0; 7; 7; 7; 1] = [255; 0; 5; 7; 7; 7; 1].
Proof. reflexivity. Qed.

Example decode_rle_example :
  _decode_rle [255; 0; 5; 7; 7; 7; 1] = [0; 0; 0; 0; 0; 7; 7; 7; 1].
Proof. reflexivity. Qed.

Example differential_example : differential [10; 12; 11; 11] = [0; 2; 255; 0].
Proof. reflexivity. Qed.

Example capacities_example :
  bytes_per_frame_video default_converter = 6220800 /\
  samples_per_frame default_converter = 1600 /\
  bytes_per_frame_audio default_converter = 6400 /\
  bytes_per_frame_total default_converter = 6227200.
Proof. repeat split. Qed.

(** The example file: the six equal bytes become [255, 0, 6] and three
    zero bytes in the frame image; the four overflow bytes are two
    samples after the 256 matrix samples. *)
Example example_dir_files :
  frame_files example_dir = [[255; 0; 6; 0; 0; 0]] /\
  len (audio_raw example_dir) = 260 /\
  slice 256 258 (audio_raw example_dir) = [9 + 256 * 8; 7 + 256 * 6].
Proof. repeat split. Qed.

Example example_round_trip :
  round_trip example_matrix_audio example_converter example_data 30
  = Ok ([5; 0; 0; 0; 0; 0; 9; 8; 7; 6], true).
Proof. vm_compute. reflexivity. Qed.

(** ** Lists, slices and lengths *)

Lemma len_nonneg {A : Type} (l : list A) : 0 <= len l.
Proof. unfold len. lia. Qed.

Lemma len_app {A : Type} (l1 l2 : list A) : len (l1 ++ l2) = len l1 + len l2.
Proof. unfold len. rewrite length_app. lia. Qed.

Lemma len_zeros (n : Z) : len (zeros n) = Z.max 0 n.
Proof. unfold len, zeros. rewrite repeat_length. lia. Qed.

Lemma len_take {A : Type} (n : Z) (l : list A) :
  len (take n l) = Z.min (Z.max 0 n) (len l).
Proof. unfold len, take. rewrite length_firstn. lia. Qed.

Lemma len_drop {A : Type} (n : Z) (l : list A) :
  len (drop n l) = Z.max 0 (len l - Z.max 0 n).
Proof. unfold len, drop. rewrite length_skipn. lia. Qed.

Lemma len_slice {A : Type} (a b : Z) (l : list A) :
  len (slice a b l) = Z.max 0 (Z.min (Z.max 0 b) (len l) - Z.max 0 a).
Proof. unfold slice. rewrite len_drop, len_take. reflexivity. Qed.

Lemma take_all {A : Type} (n : Z) (l : list A) : len l <= n -> take n l = l.
Proof. unfold len, take. intros H. apply firstn_all2. lia. Qed.

Lemma take_app_ge {A : Type} (n : Z) (l1 l2 : list A) :
  len l1 <= n -> take n (l1 ++ l2) = l1 ++ take (n - len l1) l2.
Proof.
  unfold len, take. intros H. rewrite firstn_app.
  rewrite firstn_all2 by lia. f_equal. f_equal. lia.
Qed.

Lemma firstn_repeat_le {A : Type} (x : A) (n k : nat) :
  (n <= k)%nat -> firstn n (repeat x k) = repeat x n.
Proof.
  revert k. induction n as [|n IH]; intros k H; [reflexivity|].
  destruct k as [|k]; [lia|]. simpl. f_equal. apply IH. lia.
Qed.

Lemma take_zeros (n k : Z) : n <= k -> take n (zeros k) = zeros n.
Proof.
  unfold take, zeros. intros H. apply firstn_repeat_le. lia.
Qed.

Lemma take_drop {A : Type} (n : Z) (l : list A) : take n l ++ drop n l = l.
Proof. apply firstn_skipn. Qed.

(** ** Run-length coding *)

(** The inner loop stops after a stretch of [k] copies of [x], at the
    cap, at the end of the data or in front of a different value. *)
Lemma run_count_spec (x : Z) (rest : list Z) (n : nat) :
  exists k : nat,
    run_count x rest n = (n + k)%nat /\
    (k <= length rest)%nat /\
    firstn k rest = repeat x k /\
    ((n <= 255)%nat -> (n + k <= 255)%nat) /\
    ((255 <= n + k)%nat \/
     match nth_error rest k with Some y => y <> x | None => True end).
Proof.
  revert n. induction rest as [|y rest IH]; intros n.
  - exists 0%nat. simpl. repeat split; try lia; right; exact I.
  - simpl run_count.
    destruct (Z.eqb_spec x y) as [Hxy|Hxy];
      [destruct (Nat.ltb_spec n 255) as [Hn|Hn]|]; simpl andb; cbv iota.
    + destruct (IH (S n)) as (k & Hk & Hlen & Hpre & Hcap & Hstop).
      exists (S k). subst y. simpl. rewrite Hk, Hpre.
      repeat split; try lia.
      destruct Hstop as [Hs|Hs]; [left; lia | right; exact Hs].
    + exists 0%nat. simpl. repeat split; try lia; left; lia.
    + exists 0%nat. simpl. repeat split; try lia; right; congruence.
Qed.

(** The first run of non-empty data: between 1 and 255 copies of the
    head, which are the front of the data. *)
Lemma first_run (x : Z) (rest : list Z) :
  let count := run_count x rest 1 in
  (1 <= count <= 255)%nat /\
  (count <= length (x :: rest))%nat /\
  firstn count (x :: rest) = repeat x count /\
  (count = 255%nat \/
   match nth_error (x :: rest) count with Some y => y <> x | None => True end).
Proof.
  destruct (run_count_spec x rest 1) as (k & Hk & Hlen & Hpre & Hcap & Hstop).
  cbv zeta. rewrite Hk. simpl. rewrite Hpre.
  repeat split; try lia.
  destruct Hstop as [Hs|Hs]; [left; lia | right; exact Hs].
Qed.

Lemma first_run_split (x : Z) (rest : list Z) :
  let count := run_count x rest 1 in
  x :: rest = repeat x count ++ skipn count (x :: rest).
Proof.
  cbv zeta. destruct (first_run x rest) as (_ & _ & Hpre & _).
  rewrite <- Hpre. symmetry. apply firstn_skipn.
Qed.

Lemma skip_run_length (x : Z) (rest : list Z) (fuel : nat) :
  (length (x :: rest) <= S fuel)%nat ->
  (length (skipn (run_count x rest 1) (x :: rest)) <= fuel)%nat.
Proof.
  intros H. destruct (first_run x rest) as (Hc & _).
  rewrite length_skipn. lia.
Qed.

Lemma emit_run_cases (x : Z) (count : nat) :
  (1 <= count <= 255)%nat ->
  (if Nat.ltb 3 count then [255; x; Z.of_nat count] else repeat x count)
  = emit_run (x, count).
Proof.
  intros H. unfold emit_run. cbn [fst snd].
  destruct (Nat.ltb_spec 3 count), (Nat.leb_spec 4 count),
    (Nat.leb_spec count 255); cbn [andb]; try reflexivity; lia.
Qed.

(** The coder writes [emit_run] for each run of the scan. *)
Lemma apply_rle_loop_runs (fuel : nat) (data : list Z) :
  apply_rle_loop fuel data = flat_map emit_run (rle_runs_loop fuel data).
Proof.
  revert data. induction fuel as [|fuel IH]; intros data; simpl.
  - reflexivity.
  - destruct data as [|x rest]; [reflexivity|].
    cbv zeta. simpl flat_map. rewrite <- IH. f_equal.
    apply emit_run_cases. apply (first_run x rest).
Qed.

(** The runs of the scan tile the data. *)
Lemma rle_runs_loop_tile (fuel : nat) (data : list Z) :
  (length data <= fuel)%nat ->
  flat_map expand_run (rle_runs_loop fuel data) = data.
Proof.
  revert data. induction fuel as [|fuel IH]; intros data Hlen; simpl.
  - destruct data; [reflexivity | simpl in Hlen; lia].
  - destruct data as [|x rest]; [reflexivity|].
    cbv zeta. simpl flat_map. rewrite IH by (apply skip_run_length; exact Hlen).
    unfold expand_run at 1. simpl fst. simpl snd.
    symmetry. apply first_run_split.
Qed.

Lemma rle_runs_loop_maximal (fuel : nat) (data : list Z) :
  maximal_runs (rle_runs_loop fuel data).
Proof.
  revert data. induction fuel as [|fuel IH]; intros data; simpl.
  - exact I.
  - destruct data as [|x rest]; [exact I|].
    cbv zeta. simpl. destruct (first_run x rest) as (Hc & Hle & Hpre & Hstop).
    split; [exact Hc|]. split; [|apply IH].
    destruct fuel as [|fuel']; simpl; [exact I|].
    destruct (skipn (run_count x rest 1) (x :: rest)) as [|y rest'] eqn:Hsk;
      [exact I|].
    simpl. destruct Hstop as [Hs|Hs]; [right; exact Hs|left].
    assert (Hn : nth_error (x :: rest) (run_count x rest 1) = Some y).
    { rewrite <- (firstn_skipn (run_count x rest 1) (x :: rest)) at 1.
      rewrite nth_error_app2 by (rewrite length_firstn; lia).
      rewrite length_firstn, Hsk.
      replace (_ - _)%nat with 0%nat by lia. reflexivity. }
    rewrite Hn in Hs. exact Hs.
Qed.

(** A byte other than 255 is copied by the decoder. *)
Lemma decode_rle_literal (b : Z) (rest : list Z) :
  b <> 255 -> _decode_rle (b :: rest) = b :: _decode_rle rest.
Proof.
  intros Hb. destruct rest as [|v [|n rest]]; simpl; try reflexivity.
  destruct (Z.eqb_spec b 255); [contradiction | reflexivity].
Qed.

(** So is a byte with fewer than two bytes after it. *)
Lemma decode_rle_short (b : Z) (rest : list Z) :
  (length rest < 2)%nat -> _decode_rle (b :: rest) = b :: _decode_rle rest.
Proof.
  intros H. destruct rest as [|v [|n rest]]; simpl in *; try reflexivity; lia.
Qed.

(** 255 with two bytes after it is expanded. *)
Lemma decode_rle_escape (value count : Z) (rest : list Z) :
  _decode_rle (255 :: value :: count :: rest)
  = repeat value (Z.to_nat count) ++ _decode_rle rest.
Proof. reflexivity. Qed.

Lemma decode_rle_literals (x : Z) (n : nat) (rest : list Z) :
  x <> 255 -> _decode_rle (repeat x n ++ rest) = repeat x n ++ _decode_rle rest.
Proof.
  intros Hx. induction n as [|n IH]; simpl; [reflexivity|].
  rewrite <- IH. apply decode_rle_literal. exact Hx.
Qed.

Lemma decode_apply_rle_loop (fuel : nat) (data : list Z) :
  (length data <= fuel)%nat ->
  Forall (fun r => fst r = 255 -> (3 < snd r)%nat) (rle_runs_loop fuel data) ->
  _decode_rle (apply_rle_loop fuel data) = data.
Proof.
  revert data. induction fuel as [|fuel IH]; intros data Hlen Hruns.
  - destruct data; [reflexivity | simpl in Hlen; lia].
  - destruct data as [|x rest]; [reflexivity|].
    simpl in Hruns. cbv zeta in Hruns. inversion Hruns as [|r rs H1 H2]; subst.
    simpl in H1. simpl apply_rle_loop. cbv zeta.
    specialize (IH _ (skip_run_length x rest fuel Hlen) H2).
    destruct (Nat.ltb_spec 3 (run_count x rest 1)) as [Hc|Hc].
    + change (_decode_rle
                (255 :: x :: Z.of_nat (run_count x rest 1)
                   :: apply_rle_loop fuel (skipn (run_count x rest 1) (x :: rest)))
              = x :: rest).
      rewrite decode_rle_escape, IH, Nat2Z.id.
      symmetry. apply first_run_split.
    + assert (Hx : x <> 255) by (intros E; specialize (H1 E); lia).
      rewrite decode_rle_literals by exact Hx. rewrite IH.
      symmetry. apply first_run_split.
Qed.

(** The run-length coder never lengthens its input. *)
Lemma apply_rle_loop_length (fuel : nat) (data : list Z) :
  (length (apply_rle_loop fuel data) <= length data)%nat.
Proof.
  revert data. induction fuel as [|fuel IH]; intros data; simpl; [lia|].
  destruct data as [|x rest]; [simpl; lia|].
  cbv zeta. rewrite length_app.
  destruct (first_run x rest) as (Hc & Hle & _). cbv zeta in Hc, Hle.
  specialize (IH (skipn (run_count x rest 1) (x :: rest))).
  rewrite length_skipn in IH.
  remember (run_count x rest 1) as count. remember (x :: rest) as d.
  destruct (Nat.ltb_spec 3 count);
    [change (length [255; x; Z.of_nat count]) with 3%nat
    | rewrite repeat_length]; lia.
Qed.

Lemma apply_rle_length (data : list Z) : len (_apply_rle data) <= len data.
Proof.
  unfold len, _apply_rle.
  pose proof (apply_rle_loop_length (length data) data). lia.
Qed.

(** Data without any 255 has no literal 255. *)
Lemma no_255_no_literal (data : list Z) :
  ~ In 255 data -> no_literal_255 data.
Proof.
  intros Hin. unfold no_literal_255. apply Forall_forall.
  intros [v n] Hr Hv. simpl in *. subst v. exfalso. apply Hin.
  pose proof (rle_runs_loop_tile (length data) data (Nat.le_refl _)) as Ht.
  pose proof (rle_runs_loop_maximal (length data) data) as Hm.
  fold (rle_runs data) in Ht, Hm. rewrite <- Ht.
  apply in_flat_map. exists (255, n). split; [exact Hr|].
  unfold expand_run. simpl.
  assert (1 <= n)%nat.
  { clear - Hr Hm. induction (rle_runs data) as [|r rs IH]; [destruct Hr|].
    simpl in Hm. destruct Hm as (Hc & _ & Hm').
    destruct Hr as [->|Hr]; [simpl in Hc; lia | apply IH; assumption]. }
  destruct n; [lia | left; reflexivity].
Qed.

(** ** Differential coding *)

Lemma diff_from_length (prev : Z) (l : list Z) :
  length (diff_from prev l) = length l.
Proof.
  revert prev. induction l as [|x r IH]; intros prev; simpl; [|rewrite IH];
    reflexivity.
Qed.

Lemma differential_length (data_array : list Z) :
  len (differential data_array) = len data_array.
Proof.
  unfold differential. destruct (1 <? len data_array); [|reflexivity].
  unfold len, np_diff_prepend. destruct data_array as [|x r]; [reflexivity|].
  rewrite diff_from_length. reflexivity.
Qed.

(** For two bytes or more the differential sequence starts with 0 and
    goes on with the wrapped differences of neighbours. *)
Lemma differential_cons2 (x y : Z) (r : list Z) :
  differential (x :: y :: r) = 0 :: diff_from x (y :: r).
Proof.
  unfold differential.
  replace (1 <? len (x :: y :: r)) with true
    by (symmetry; apply Z.ltb_lt; unfold len; simpl length; lia).
  simpl. rewrite Z.sub_diag. reflexivity.
Qed.

(** A single byte (and the empty sequence) is passed on unchanged. *)
Lemma differential_single (x : Z) : differential [x] = [x].
Proof. reflexivity. Qed.

(** On two bytes the decoder gives back the base and the difference,
    not the second byte. *)
Lemma differential_decode_pair (x y : Z) :
  0 <= x < 256 ->
  differential_decode x (differential [x; y]) = [x; (y - x) mod 256].
Proof.
  intros Hx. rewrite differential_cons2.
  pose proof (Z.mod_pos_bound (y - x) 256 ltac:(lia)) as Hd.
  cbn [diff_from]. set (d := (y - x) mod 256) in *.
  assert (Hc : np_cumsum_int32 [0; d] = [0; d]).
  { unfold np_cumsum_int32. cbn [cumsum_from].
    change (to_int32 (0 + 0)) with 0.
    unfold to_int32. rewrite Z.mod_small by lia.
    f_equal. f_equal. lia. }
  unfold differential_decode. change (0 <? len [0; d]) with true.
  cbv iota zeta. rewrite Hc. cbn [tl map]. unfold np_clip.
  rewrite !Z.max_l, !Z.min_l by lia. rewrite !Z.mod_small by lia.
  reflexivity.
Qed.

(** ** Compression metadata *)

Lemma compressed_le_original (data_chunk : list Z) (ms : Z) :
  let cm := snd (create_compression_matrix data_chunk ms) in
  compressed_length cm = len (fst (create_compression_matrix data_chunk ms)) /\
  original_length cm = len data_chunk /\
  compressed_length cm <= original_length cm /\
  (compression_ratio cm <= 1)%Q.
Proof.
  cbv zeta. unfold create_compression_matrix. cbn [fst snd
    compressed_length original_length compression_ratio].
  pose proof (apply_rle_length (differential data_chunk)) as H.
  rewrite differential_length in H.
  repeat split; try exact H.
  destruct (Z.ltb_spec 0 (len data_chunk)) as [Hpos|Hz].
  - unfold Qle. cbn [Qnum Qden]. rewrite Z2Pos.id by exact Hpos. lia.
  - unfold Qle. simpl. lia.
Qed.

(** ** Sample buffers *)

Lemma frombuffer_length (b s : list Z) :
  np_frombuffer_int16 b = Ok s -> len b = 2 * len s.
Proof.
  assert (H : forall (n : nat) (b s : list Z),
             (length b <= n)%nat ->
             np_frombuffer_int16 b = Ok s -> len b = 2 * len s).
  { clear b s. induction n as [|n IH]; intros b s Hn H.
    - destruct b; [|simpl in Hn; lia]. inversion H. reflexivity.
    - destruct b as [|lo [|hi r]]; simpl in H.
      + inversion H. reflexivity.
      + discriminate.
      + destruct (np_frombuffer_int16 r) as [rest|e] eqn:Hr; simpl in H;
          [|discriminate].
        inversion H; subst.
        assert (Hr' : len r = 2 * len rest)
          by (apply IH; [simpl in Hn; lia | exact Hr]).
        unfold len in *. simpl length. lia. }
  apply (H (length b)). lia.
Qed.

Lemma frombuffer_even (n : nat) (b : list Z) :
  length b = (2 * n)%nat ->
  exists s, np_frombuffer_int16 b = Ok s /\ length s = n.
Proof.
  revert b. induction n as [|n IH]; intros b H.
  - destruct b; [|simpl in H; lia]. exists []. split; reflexivity.
  - destruct b as [|lo [|hi r]]; simpl in H; try lia.
    destruct (IH r ltac:(lia)) as (s & Hs & Hl).
    exists (to_int16 (lo + 256 * hi) :: s). simpl. rewrite Hs. simpl.
    split; [reflexivity | lia].
Qed.

Lemma int16_tobytes_length (a : list Z) :
  length (int16_tobytes a) = (2 * length a)%nat.
Proof.
  unfold int16_tobytes. induction a as [|x a IH]; simpl; [reflexivity|].
  simpl in IH. rewrite IH. lia.
Qed.

(** Reading the matrix succeeds as soon as the samples are there. *)
Lemma audio_to_matrix_ok (samples : list Z) (ms : Z) :
  0 <= ms -> len samples = ms * ms ->
  exists m, audio_to_matrix (int16_tobytes samples) ms = Ok m.
Proof.
  intros Hms Hlen. unfold audio_to_matrix.
  destruct (frombuffer_even (length samples) (int16_tobytes samples)
              (int16_tobytes_length samples)) as (s & Hs & Hl).
  rewrite Hs. simpl. rewrite len_take.
  replace (len s) with (ms * ms) by (unfold len in *; lia).
  replace (Z.min (Z.max 0 (ms * ms)) (ms * ms) =? ms * ms) with true
    by (symmetry; apply Z.eqb_eq; nia).
  eexists. reflexivity.
Qed.

(** ** Capacities and the pieces of a frame *)

Section Geometry.

Variable matrix_audio : list Z.
Variable c : Converter.
Hypothesis Hvalid : valid_geometry c.

Lemma capacities_positive :
  0 < bytes_per_frame_video c /\
  0 <= samples_per_frame c /\
  0 <= bytes_per_frame_audio c /\
  0 < bytes_per_frame_total c.
Proof.
  destruct Hvalid as (Hw & Hh & Hs & Hc).
  unfold bytes_per_frame_total, bytes_per_frame_audio, bytes_per_frame_video,
    pixels_per_frame, samples_per_frame.
  assert (0 <= sample_rate c / 30) by (apply Z.div_pos; lia).
  nia.
Qed.

Lemma frame_total_data_length (data : list Z) (k : Z) :
  0 <= k ->
  len (frame_total_data c data k)
  = Z.max 0 (Z.min (bytes_per_frame_total c)
                   (len data - k * bytes_per_frame_total c)).
Proof.
  intros Hk. unfold frame_total_data. cbv zeta. rewrite len_slice.
  pose proof capacities_positive as (_ & _ & _ & Ht).
  pose proof (len_nonneg data). nia.
Qed.

Lemma video_data_size_bounds (data : list Z) (k : Z) :
  0 <= video_data_size c data k <= len (frame_total_data c data k) /\
  video_data_size c data k <= bytes_per_frame_video c.
Proof.
  unfold video_data_size.
  pose proof capacities_positive as (Hv & _).
  pose proof (len_nonneg (frame_total_data c data k)). lia.
Qed.

Lemma video_data_length (data : list Z) (k : Z) :
  len (video_data c data k) = video_data_size c data k.
Proof.
  unfold video_data. rewrite len_take.
  pose proof (video_data_size_bounds data k). lia.
Qed.

Lemma audio_data_length (data : list Z) (k : Z) :
  len (audio_data c data k)
  = len (frame_total_data c data k) - video_data_size c data k.
Proof.
  unfold audio_data. pose proof (video_data_size_bounds data k) as Hb.
  destruct (Z.ltb_spec (video_data_size c data k)
              (len (frame_total_data c data k))).
  - rewrite len_drop. lia.
  - unfold len at 1. simpl. lia.
Qed.

(** Video bytes, then overflow bytes: together the slice of the file. *)
Lemma video_audio_split (data : list Z) (k : Z) :
  video_data c data k ++ audio_data c data k = frame_total_data c data k.
Proof.
  unfold video_data, audio_data.
  pose proof (video_data_size_bounds data k) as Hb.
  destruct (Z.ltb_spec (video_data_size c data k)
              (len (frame_total_data c data k))).
  - apply take_drop.
  - rewrite app_nil_r. apply take_all. lia.
Qed.

Lemma full_audio_length (audio : list Z) :
  bytes_per_frame_audio c <= len (full_audio matrix_audio c audio).
Proof.
  unfold full_audio. cbv zeta. rewrite !len_app, len_zeros. lia.
Qed.

(** The audio buffer of a frame has the size of the audio capacity. *)
Lemma frame_audio_buffer_length (data : list Z) (k : Z) :
  len (frame_audio_buffer matrix_audio c data k) = bytes_per_frame_audio c.
Proof.
  unfold frame_audio_buffer. rewrite len_take.
  pose proof (full_audio_length (audio_data c data k)).
  pose proof capacities_positive. lia.
Qed.

(** The frame image has the size of the video capacity. *)
Lemma fit_video_length (compressed_video : list Z) :
  len (fit_video c compressed_video) = bytes_per_frame_video c.
Proof.
  unfold fit_video. pose proof capacities_positive as (Hv & _).
  destruct (Z.ltb_spec (len compressed_video) (bytes_per_frame_video c)).
  - rewrite len_app, len_zeros. lia.
  - rewrite len_take. lia.
Qed.

(** Unfolding of the loop body into the named pieces. *)
Lemma encode_frame_eq (data : list Z) (k : Z) :
  encode_frame matrix_audio c data k
  = (audio_samples <-
       np_frombuffer_int16 (frame_audio_buffer matrix_audio c data k) ;;
     Ok {| fo_pixels := frame_pixels c data k;
           fo_samples := audio_samples;
           fo_meta := frame_meta c data k |}).
Proof. reflexivity. Qed.

(** The loop body never raises, and yields
    [samples_per_frame * audio_channels] samples. *)
Lemma encode_frame_ok (data : list Z) (k : Z) :
  exists s,
    np_frombuffer_int16 (frame_audio_buffer matrix_audio c data k) = Ok s /\
    len s = samples_per_frame c * audio_channels c /\
    encode_frame matrix_audio c data k
    = Ok {| fo_pixels := frame_pixels c data k;
            fo_samples := s;
            fo_meta := frame_meta c data k |}.
Proof.
  pose proof (frame_audio_buffer_length data k) as Hlen.
  pose proof capacities_positive as (_ & Hs & Ha & _).
  destruct (frombuffer_even
              (Z.to_nat (samples_per_frame c * audio_channels c))
              (frame_audio_buffer matrix_audio c data k)) as (s & Hs1 & Hs2).
  { unfold len, bytes_per_frame_audio in *. lia. }
  exists s. split; [exact Hs1|]. split.
  - unfold len, bytes_per_frame_audio in *. lia.
  - rewrite encode_frame_eq, Hs1. reflexivity.
Qed.

End Geometry.

(** ** [range] and [ceil_div] *)

Lemma range_length (n : Z) : length (range n) = Z.to_nat n.
Proof. unfold range. rewrite length_map, length_seq. reflexivity. Qed.

Lemma nth_error_range (n : Z) (k : nat) :
  (k < Z.to_nat n)%nat -> nth_error (range n) k = Some (Z.of_nat k).
Proof.
  intros H. unfold range. rewrite nth_error_map.
  rewrite nth_error_seq. destruct (Nat.ltb_spec k (Z.to_nat n)); [|lia].
  reflexivity.
Qed.

Lemma range_succ (n : Z) : 0 <= n -> range (n + 1) = range n ++ [n].
Proof.
  intros H. unfold range.
  replace (Z.to_nat (n + 1)) with (Z.to_nat n + 1)%nat by lia.
  rewrite seq_app, map_app. simpl. rewrite Z2Nat.id by exact H. reflexivity.
Qed.

Lemma ceil_div_zero (b : Z) : ceil_div 0 b = 0.
Proof. unfold ceil_div. change (- 0) with 0. rewrite Zdiv_0_l. reflexivity. Qed.

Lemma ceil_div_pos (a b : Z) : 0 < a -> 0 < b -> 1 <= ceil_div a b.
Proof.
  intros Ha Hb. unfold ceil_div.
  assert (- a / b < 0) by (apply Z.div_lt_upper_bound; lia). lia.
Qed.

(** [ceil_div a b] is the least [n] with [a <= n * b]. *)
Lemma ceil_div_spec (a b : Z) :
  0 < b -> (ceil_div a b - 1) * b < a <= ceil_div a b * b.
Proof.
  intros Hb. unfold ceil_div.
  pose proof (Z.div_mod (- a) b ltac:(lia)) as Hdm.
  pose proof (Z.mod_pos_bound (- a) b Hb). nia.
Qed.

(** ** The encode loop *)

Section EncodeLoop.

Variable matrix_audio : list Z.
Variable c : Converter.
Variable data : list Z.

Lemma encode_loop_inv (idxs : list Z) (st st' : EncState) :
  encode_loop matrix_audio c data idxs st = Ok st' ->
  exists auds,
    Forall2 (samples_of matrix_audio c data) idxs auds /\
    saved_frames st' = saved_frames st ++ map (frame_pixels c data) idxs /\
    all_audio_data st' = all_audio_data st ++ auds /\
    frames_metadata st' = frames_metadata st ++ map (frame_meta c data) idxs.
Proof.
  revert st. induction idxs as [|k idxs IH]; intros st H; simpl in H.
  - inversion H; subst. exists []. simpl. rewrite !app_nil_r.
    repeat split. constructor.
  - rewrite encode_frame_eq in H.
    destruct (np_frombuffer_int16 (frame_audio_buffer matrix_audio c data k))
      as [a|e] eqn:Ha; simpl in H; [|discriminate].
    destruct (IH _ H) as (auds & HF & H1 & H2 & H3). simpl in H1, H2, H3.
    exists (a :: auds). simpl. rewrite H1, H2, H3, <- !app_assoc.
    repeat split. constructor; assumption.
Qed.

Hypothesis Hvalid : valid_geometry c.

Lemma encode_loop_ok (idxs : list Z) (st : EncState) :
  exists st', encode_loop matrix_audio c data idxs st = Ok st'.
Proof.
  revert st. induction idxs as [|k idxs IH]; intros st; simpl.
  - eexists. reflexivity.
  - destruct (encode_frame_ok matrix_audio c Hvalid data k)
      as (s & _ & _ & ->). simpl. apply IH.
Qed.

Lemma samples_of_length (k : Z) (a : list Z) :
  samples_of matrix_audio c data k a -> len a = samples_per_frame c * audio_channels c.
Proof.
  intros H. apply frombuffer_length in H.
  rewrite (frame_audio_buffer_length matrix_audio c Hvalid) in H.
  unfold bytes_per_frame_audio in H. lia.
Qed.

Lemma samples_concat_length (idxs : list Z) (auds : list (list Z)) :
  Forall2 (samples_of matrix_audio c data) idxs auds ->
  len (concat auds)
  = len idxs * (samples_per_frame c * audio_channels c).
Proof.
  induction 1 as [|k a idxs auds Ha _ IH]; [reflexivity|].
  simpl concat. rewrite len_app, IH, (samples_of_length k a Ha).
  unfold len. simpl length. lia.
Qed.

(** What a successful encode pass has written. *)
Lemma file_to_frames_inv (fps_arg : Z) (dir : Artifacts) :
  file_to_frames_with_audio matrix_audio c data fps_arg = Ok dir ->
  let n := encode_num_frames c data in
  exists auds,
    Forall2 (samples_of matrix_audio c data) (range n) auds /\
    auds <> [] /\
    frame_files dir = map (frame_pixels c data) (range n) /\
    audio_raw dir = concat auds /\
    metadata_json dir
    = {| original_size := len data;
         md_width := width c;
         md_height := height c;
         md_sample_rate := sample_rate c;
         md_audio_channels := audio_channels c;
         num_frames := n;
         fps := fps_arg;
         frames := map (frame_meta c data) (range n) |}.
Proof.
  unfold file_to_frames_with_audio. cbv zeta.
  destruct (bytes_per_frame_total c =? 0); [discriminate|].
  destruct (encode_loop matrix_audio c data (range (encode_num_frames c data))
              enc_init) as [st|e] eqn:Hloop; simpl; [|discriminate].
  destruct (encode_loop_inv _ _ _ Hloop) as (auds & HF & H1 & H2 & H3).
  simpl in H1, H2, H3. rewrite H1, H2, H3.
  destruct auds as [|a auds]; simpl; [discriminate|].
  intros H. inversion H; subst; clear H. simpl.
  exists (a :: auds). repeat split; [exact HF | discriminate].
Qed.

(** The encode pass succeeds on every non-empty file. *)
Lemma file_to_frames_ok (fps_arg : Z) :
  0 < len data ->
  exists dir, file_to_frames_with_audio matrix_audio c data fps_arg = Ok dir.
Proof.
  intros Hdata. unfold file_to_frames_with_audio. cbv zeta.
  pose proof (capacities_positive c Hvalid) as (_ & _ & _ & Ht).
  destruct (Z.eqb_spec (bytes_per_frame_total c) 0); [lia|].
  destruct (encode_loop_ok (range (encode_num_frames c data)) enc_init)
    as (st & Hst).
  rewrite Hst. simpl.
  destruct (encode_loop_inv _ _ _ Hst) as (auds & HF & _ & H2 & _).
  simpl in H2. rewrite H2.
  destruct auds as [|a auds]; simpl; [exfalso | eexists; reflexivity].
  inversion HF as [Hr|]. symmetry in Hr.
  apply (f_equal (@length Z)) in Hr. rewrite range_length in Hr. simpl in Hr.
  pose proof (ceil_div_pos (len data) (bytes_per_frame_total c) Hdata Ht).
  unfold encode_num_frames in Hr. lia.
Qed.

End EncodeLoop.

(** ** The decode loop *)

Lemma range_split (n k : Z) :
  0 <= k < n -> exists l2, range n = range k ++ k :: l2.
Proof.
  intros H. unfold range.
  replace (Z.to_nat n) with (Z.to_nat k + S (Z.to_nat (n - k - 1)))%nat by lia.
  rewrite seq_app, map_app. simpl. rewrite Z2Nat.id by lia.
  eexists. reflexivity.
Qed.

Lemma lookup_map_range {A : Type} (e : exn) (f : Z -> A) (n k : Z) :
  0 <= k < n -> lookup e (map f (range n)) k = Ok (f k).
Proof.
  intros H. unfold lookup. rewrite nth_error_map, nth_error_range by lia.
  simpl. rewrite Z2Nat.id by lia. reflexivity.
Qed.

Lemma decode_loop_app (c : Converter) (dir : Artifacts) (l1 l2 : list Z)
  (st : DecState) :
  decode_loop c dir (l1 ++ l2) st
  = (st1 <- decode_loop c dir l1 st ;; decode_loop c dir l2 st1).
Proof.
  revert st. induction l1 as [|k l1 IH]; intros st; simpl; [reflexivity|].
  destruct (decode_frame c dir st k); simpl; [apply IH|reflexivity].
Qed.

(** One iteration of the decode loop, once the frame and its metadata
    entry are found and the audio holds the matrix samples. *)
Lemma decode_frame_ok (c : Converter) (dir : Artifacts) (st : DecState)
  (k : Z) (fm : FrameMeta) (px : list Z) :
  lookup IndexError (frames (metadata_json dir)) k = Ok fm ->
  lookup FileNotFoundError (frame_files dir) k = Ok px ->
  let ms := matrix_size (compression fm) in
  let off := audio_offset st in
  0 <= ms -> 0 <= off -> off + ms * ms <= len (audio_raw dir) ->
  decode_frame c dir st k
  = Ok {| all_data :=
            all_data st
            ++ take (original_length (compression fm))
                 (differential_decode (differential_base (compression fm))
                    (_decode_rle (compressed_bytes fm px)))
            ++ take (audio_bytes fm)
                 (int16_tobytes
                    (slice (off + ms * ms)
                       (off + ms * ms + audio_bytes fm / 2) (audio_raw dir)));
          audio_offset := off + samples_per_frame c |}.
Proof.
  intros Hfm Hpx ms off Hms Hoff Hlen. unfold decode_frame.
  rewrite Hfm. cbn [bind]. rewrite Hpx. cbn [bind]. cbv zeta.
  fold ms. fold off.
  destruct (audio_to_matrix_ok (slice off (off + ms * ms) (audio_raw dir)) ms
              Hms) as (m & Hm).
  { rewrite len_slice. assert (0 <= ms * ms) by nia. lia. }
  rewrite Hm. reflexivity.
Qed.

Section DecodeEncoded.

Variable matrix_audio : list Z.
Variable c : Converter.
Variable data : list Z.
Variable fps_arg : Z.
Variable dir : Artifacts.

Hypothesis Hvalid : valid_geometry c.
Hypothesis Hroom : 256 <= samples_per_frame c * audio_channels c.
Hypothesis Hdir :
  file_to_frames_with_audio matrix_audio c data fps_arg = Ok dir.

Lemma encoded_audio_length :
  len (audio_raw dir)
  = encode_num_frames c data * (samples_per_frame c * audio_channels c).
Proof.
  destruct (file_to_frames_inv _ _ _ _ _ Hdir) as (auds & HF & Hne & _ & Ha & _).
  rewrite Ha, (samples_concat_length _ _ _ Hvalid _ _ HF).
  f_equal. unfold len. rewrite range_length.
  destruct auds as [|a auds]; [contradiction|].
  inversion HF as [|? ? ? ? _ _ Hr]; subst.
  assert (Hl : length (range (encode_num_frames c data)) <> 0%nat)
    by (rewrite <- Hr; discriminate).
  rewrite range_length in Hl. lia.
Qed.

(** Decoding frame [k] of what the encode pass wrote, with the cursor
    at [k * samples_per_frame]. *)
Lemma decode_encoded_frame (st : DecState) (k : Z) :
  0 <= k < encode_num_frames c data ->
  audio_offset st = k * samples_per_frame c ->
  let fm := frame_meta c data k in
  decode_frame c dir st k
  = Ok {| all_data :=
            all_data st
            ++ take (original_length (compression fm))
                 (differential_decode (differential_base (compression fm))
                    (_decode_rle
                       (compressed_bytes fm (frame_pixels c data k))))
            ++ take (audio_bytes fm)
                 (int16_tobytes
                    (slice (audio_offset st + 16 * 16)
                       (audio_offset st + 16 * 16 + audio_bytes fm / 2)
                       (audio_raw dir)));
          audio_offset := audio_offset st + samples_per_frame c |}.
Proof.
  intros Hk Hoff fm.
  destruct (file_to_frames_inv _ _ _ _ _ Hdir) as (auds & _ & _ & Hf & _ & Hm).
  pose proof (capacities_positive c Hvalid) as (_ & Hs & _ & _).
  destruct Hvalid as (_ & _ & _ & Hc).
  apply (decode_frame_ok c dir st k fm (frame_pixels c data k)).
  - rewrite Hm. cbn [frames]. apply lookup_map_range. exact Hk.
  - rewrite Hf. apply lookup_map_range. exact Hk.
  - simpl. lia.
  - rewrite Hoff. nia.
  - rewrite encoded_audio_length, Hoff.
    change (matrix_size (compression fm)) with 16. nia.
Qed.

Lemma decode_prefix_ok (j : nat) :
  Z.of_nat j <= encode_num_frames c data ->
  exists st,
    decode_loop c dir (range (Z.of_nat j)) dec_init = Ok st /\
    audio_offset st = Z.of_nat j * samples_per_frame c.
Proof.
  induction j as [|j IH]; intros Hj.
  - exists dec_init. split; reflexivity.
  - destruct (IH ltac:(lia)) as (st & Hst & Hoff).
    replace (Z.of_nat (S j)) with (Z.of_nat j + 1) by lia.
    rewrite range_succ, decode_loop_app, Hst by lia. cbn [bind decode_loop].
    rewrite (decode_encoded_frame st (Z.of_nat j)) by (try exact Hoff; lia).
    cbn [bind]. eexists. split; [reflexivity|]. cbn [audio_offset]. lia.
Qed.

End DecodeEncoded.

(** * The claims *)

(** ** Run-length codec *)

(** C3.  For every byte sequence [D] in which 255 does not occur outside
    a run that is written as an escape, [_decode_rle (_apply_rle D) = D].
    The coder writes the escape [255, value, count] for each maximal run
    (capped at 255) with [4 <= count <= 255] and [count] literal copies
    otherwise; the decoder expands a 255 that has two more bytes after it
    as a [(value, count)] pair and copies every other byte. *)
Theorem C3_rle_round_trip (D : list Z) :
  no_literal_255 D ->
  _decode_rle (_apply_rle D) = D /\
  _apply_rle D = flat_map emit_run (rle_runs D) /\
  flat_map expand_run (rle_runs D) = D /\
  maximal_runs (rle_runs D) /\
  (forall value count rest,
      _decode_rle (255 :: value :: count :: rest)
      = repeat value (Z.to_nat count) ++ _decode_rle rest) /\
  (forall b rest,
      b <> 255 \/ (length rest < 2)%nat ->
      _decode_rle (b :: rest) = b :: _decode_rle rest).
Proof.
  intros HD. split; [|split; [|split; [|split; [|split]]]].
  - apply decode_apply_rle_loop; [apply Nat.le_refl | exact HD].
  - apply apply_rle_loop_runs.
  - apply rle_runs_loop_tile. apply Nat.le_refl.
  - apply rle_runs_loop_maximal.
  - intros. apply decode_rle_escape.
  - intros b rest [Hb|Hr]; [apply decode_rle_literal | apply decode_rle_short];
      assumption.
Qed.

Lemma C3_rle_round_trip_witness :
  no_literal_255 [255; 255; 255; 255; 255; 7; 7; 0; 0; 0; 0; 1] /\
  _decode_rle (_apply_rle [255; 255; 255; 255; 255; 7; 7; 0; 0; 0; 0; 1])
  = [255; 255; 255; 255; 255; 7; 7; 0; 0; 0; 0; 1].
Proof.
  assert (H : no_literal_255 [255; 255; 255; 255; 255; 7; 7; 0; 0; 0; 0; 1]).
  { unfold no_literal_255. simpl.
    repeat constructor; simpl; intros; try lia; discriminate. }
  split; [exact H|].
  exact (proj1 (C3_rle_round_trip _ H)).
Defined.

(** A run of 255s that the cap of 255 cuts into an escape and a short
    rest has literal 255s; here the rest, two bytes, takes the next byte
    as its count and the round trip loses three bytes. *)
Remark capped_run_of_255 :
  let D := repeat 255 257 ++ [0; 1] in
  ~ no_literal_255 D /\
  _apply_rle D = [255; 255; 255; 255; 255; 0; 1] /\
  _decode_rle (_apply_rle D) = repeat 255 255 ++ [1].
Proof.
  cbv zeta. split; [|split; vm_compute; reflexivity].
  unfold no_literal_255. intros H.
  replace (rle_runs (repeat 255 257 ++ [0; 1]))
    with [(255, 255%nat); (255, 2%nat); (0, 1%nat); (1, 1%nat)] in H
    by (vm_compute; reflexivity).
  inversion H as [|? ? _ H']; subst. inversion H' as [|? ? H2 _]; subst.
  specialize (H2 eq_refl). simpl in H2. lia.
Qed.

(** ** Differential codec *)

(** C2.  The differential decoder does not invert the encoder: for
    [D = [1; 2]] the encoder gives [[0; 1]] with base 1 and the decoder
    gives back [[1; 1]] (the base is stored in place 0 and not added to
    the running sums); for [D = [0; 5; 3]] the wrapped difference 254
    makes the running sum 259, which is clipped to 255. *)
Theorem C2_differential_decode_not_inverse :
  differential [1; 2] = [0; 1] /\
  differential_decode 1 (differential [1; 2]) = [1; 1] /\
  differential_decode 1 (differential [1; 2]) <> [1; 2] /\
  differential [0; 5; 3] = [0; 5; 254] /\
  differential_decode 0 (differential [0; 5; 3]) = [0; 5; 255].
Proof.
  repeat split; try reflexivity. discriminate.
Qed.

(** ** Capacity of a frame *)

Lemma frame_meta_bounds (c : Converter) (data : list Z) (k : Z) :
  valid_geometry c ->
  let cm := compression (frame_meta c data k) in
  compressed_length cm <= original_length cm /\
  original_length cm = video_bytes (frame_meta c data k) /\
  original_length cm <= bytes_per_frame_video c /\
  (compression_ratio cm <= 1)%Q.
Proof.
  intros Hvalid. cbv zeta. unfold frame_meta. cbn [compression video_bytes].
  destruct (compressed_le_original (video_data c data k) 16)
    as (_ & Ho & Hle & Hq). cbv zeta in Ho, Hle, Hq.
  rewrite Ho in *. rewrite (video_data_length c Hvalid) in *.
  pose proof (video_data_size_bounds c Hvalid data k).
  repeat split; try assumption; lia.
Qed.

Lemma encoded_frames_fit (matrix_audio : list Z) (c : Converter)
  (data : list Z) (fps_arg : Z) (dir : Artifacts) :
  valid_geometry c ->
  file_to_frames_with_audio matrix_audio c data fps_arg = Ok dir ->
  Forall (fun fm =>
            compressed_length (compression fm)
            <= original_length (compression fm) /\
            compressed_length (compression fm) <= bytes_per_frame_video c /\
            (compression_ratio (compression fm) <= 1)%Q)
         (frames (metadata_json dir)).
Proof.
  intros Hvalid Hdir.
  destruct (file_to_frames_inv _ _ _ _ _ Hdir) as (auds & _ & _ & _ & _ & Hm).
  rewrite Hm. cbn [frames]. apply Forall_forall. intros fm Hin.
  apply in_map_iff in Hin. destruct Hin as (k & <- & _).
  destruct (frame_meta_bounds c data k Hvalid) as (H1 & _ & H3 & H4).
  cbv zeta in H1, H3, H4. repeat split; try assumption; lia.
Qed.

(** C6 (as the code has it).  The run-length coder never lengthens its
    input, so in every frame of every encode pass the compressed video
    payload is at most as long as the video slice, hence at most
    [bytes_per_frame_video], and the recorded [compression_ratio] is at
    most 1: the payload never exceeds the frame capacity. *)
Theorem C6_compressed_fits_capacity (matrix_audio : list Z) (c : Converter)
  (data : list Z) (fps_arg : Z) (dir : Artifacts) :
  valid_geometry c ->
  file_to_frames_with_audio matrix_audio c data fps_arg = Ok dir ->
  Forall (fun fm =>
            compressed_length (compression fm)
            <= original_length (compression fm) /\
            compressed_length (compression fm) <= bytes_per_frame_video c /\
            (compression_ratio (compression fm) <= 1)%Q)
         (frames (metadata_json dir)).
Proof. exact (encoded_frames_fit matrix_audio c data fps_arg dir). Qed.

(** C6, refuted as stated: no input and valid geometry give a frame
    whose compressed payload exceeds [bytes_per_frame_video]. *)
Lemma C6_capacity_exhausted_unreachable :
  ~ ((exists (matrix_audio : list Z) (c : Converter) (data : list Z)
        (fps_arg : Z) (dir : Artifacts) (fm : FrameMeta),
        valid_geometry c /\
        file_to_frames_with_audio matrix_audio c data fps_arg = Ok dir /\
        In fm (frames (metadata_json dir)) /\
        bytes_per_frame_video c < compressed_length (compression fm)) /\
     (forall (matrix_audio : list Z) (c : Converter) (data : list Z)
        (fps_arg : Z) (dir : Artifacts) (fm : FrameMeta),
        valid_geometry c ->
        file_to_frames_with_audio matrix_audio c data fps_arg = Ok dir ->
        In fm (frames (metadata_json dir)) ->
        bytes_per_frame_video c < compressed_length (compression fm) ->
        (1 < compression_ratio (compression fm))%Q)).
Proof.
  intros [(m & c & data & fps_arg & dir & fm & Hvalid & Hdir & Hin & Hgt) _].
  destruct (file_to_frames_inv _ _ _ _ _ Hdir) as (auds & _ & _ & _ & _ & Hm).
  rewrite Hm in Hin. cbn [frames] in Hin.
  apply in_map_iff in Hin. destruct Hin as (k & <- & _).
  destruct (frame_meta_bounds c data k Hvalid) as (H1 & _ & H3 & _).
  cbv zeta in H1, H3. lia.
Qed.

Lemma example_dir_encoded :
  file_to_frames_with_audio example_matrix_audio example_converter
    example_data 30 = Ok example_dir.
Proof. vm_compute. reflexivity. Qed.

Lemma example_converter_valid : valid_geometry example_converter.
Proof. repeat split. Qed.

Lemma default_converter_valid : valid_geometry default_converter.
Proof. repeat split. Qed.

Lemma C6_compressed_fits_capacity_witness :
  valid_geometry example_converter /\
  file_to_frames_with_audio example_matrix_audio example_converter
    example_data 30 = Ok example_dir /\
  Forall (fun fm =>
            compressed_length (compression fm)
            <= original_length (compression fm) /\
            compressed_length (compression fm)
            <= bytes_per_frame_video example_converter /\
            (compression_ratio (compression fm) <= 1)%Q)
         (frames (metadata_json example_dir)).
Proof.
  split; [repeat split|]. split; [vm_compute; reflexivity|].
  apply (C6_compressed_fits_capacity example_matrix_audio example_converter
           example_data 30 example_dir).
  - repeat split.
  - vm_compute. reflexivity.
Defined.

(** ** What the decoder reads from a frame image *)

(** The first [video_bytes] bytes of the frame image of frame [k]: the
    compressed stream and the zero padding up to the length of the video
    slice. *)
Lemma compressed_bytes_encoded (c : Converter) (data : list Z) (k : Z) :
  valid_geometry c ->
  let fm := frame_meta c data k in
  let compressed := _apply_rle (differential (video_data c data k)) in
  compressed_bytes fm (frame_pixels c data k)
  = compressed
    ++ zeros (original_length (compression fm)
              - compressed_length (compression fm)).
Proof.
  intros Hvalid. cbv zeta.
  destruct (frame_meta_bounds c data k Hvalid) as (Hle & Hvb & Hcap & _).
  cbv zeta in Hle, Hvb, Hcap.
  set (fm := frame_meta c data k) in *.
  set (comp := _apply_rle (differential (video_data c data k))).
  assert (Hcl : compressed_length (compression fm) = len comp) by reflexivity.
  unfold compressed_bytes, frame_pixels, fit_video.
  change (fst (create_compression_matrix (video_data c data k) 16)) with comp.
  rewrite <- Hvb, Hcl in *.
  destruct (Z.ltb_spec (len comp) (bytes_per_frame_video c)).
  - rewrite take_app_ge by lia. f_equal. apply take_zeros. lia.
  - rewrite take_all by (rewrite len_take; lia).
    rewrite take_all by lia.
    replace (original_length (compression fm) - len comp) with 0 by lia.
    symmetry. apply app_nil_r.
Qed.

(** C10.  For every frame the encode pass wrote, the iteration of the
    decode loop for that frame runs [_decode_rle] on the first
    [video_bytes] bytes of the frame image, where [video_bytes] is the
    length of the video slice before compression,
    [min (len slice) bytes_per_frame_video], and not the compressed
    length: what is decoded is the compressed stream followed by
    [original_length - compressed_length] zero bytes of padding, and the
    bytes the iteration appends are computed from that decoding. *)
Theorem C10_rle_input_is_uncompressed_length_prefix
  (matrix_audio : list Z) (c : Converter) (data : list Z) (fps_arg : Z)
  (dir : Artifacts) (k : nat) (fm : FrameMeta) (px : list Z)
  (st : DecState) :
  valid_geometry c ->
  file_to_frames_with_audio matrix_audio c data fps_arg = Ok dir ->
  nth_error (frames (metadata_json dir)) k = Some fm ->
  nth_error (frame_files dir) k = Some px ->
  0 <= audio_offset st ->
  audio_offset st + 16 * 16 <= len (audio_raw dir) ->
  let cm := compression fm in
  let compressed := _apply_rle (differential (video_data c data (Z.of_nat k))) in
  let overflow_read :=
    take (audio_bytes fm)
      (int16_tobytes
         (slice (audio_offset st + 16 * 16)
            (audio_offset st + 16 * 16 + audio_bytes fm / 2)
            (audio_raw dir))) in
  video_bytes fm
  = Z.min (len (frame_total_data c data (Z.of_nat k)))
          (bytes_per_frame_video c) /\
  video_bytes fm = original_length cm /\
  compressed_length cm = len compressed /\
  compressed_length cm <= original_length cm /\
  compressed_bytes fm px = take (video_bytes fm) px /\
  compressed_bytes fm px
  = compressed ++ zeros (original_length cm - compressed_length cm) /\
  (compressed_length cm < original_length cm ->
   len (zeros (original_length cm - compressed_length cm))
   = original_length cm - compressed_length cm /\
   compressed_bytes fm px <> compressed) /\
  decode_frame c dir st (Z.of_nat k)
  = Ok {| all_data :=
            all_data st
            ++ take (original_length cm)
                 (differential_decode (differential_base cm)
                    (_decode_rle (take (video_bytes fm) px)))
            ++ overflow_read;
          audio_offset := audio_offset st + samples_per_frame c |} /\
  decode_frame c dir st (Z.of_nat k)
  = Ok {| all_data :=
            all_data st
            ++ take (original_length cm)
                 (differential_decode (differential_base cm)
                    (_decode_rle
                       (compressed
                        ++ zeros (original_length cm - compressed_length cm))))
            ++ overflow_read;
          audio_offset := audio_offset st + samples_per_frame c |}.
Proof.
  intros Hvalid Hdir Hfm Hpx Hoff Haud.
  assert (Hdec : decode_frame c dir st (Z.of_nat k)
                 = Ok {| all_data :=
                           all_data st
                           ++ take (original_length (compression fm))
                                (differential_decode
                                   (differential_base (compression fm))
                                   (_decode_rle (compressed_bytes fm px)))
                           ++ take (audio_bytes fm)
                                (int16_tobytes
                                   (slice (audio_offset st + 16 * 16)
                                      (audio_offset st + 16 * 16
                                       + audio_bytes fm / 2)
                                      (audio_raw dir)));
                         audio_offset :=
                           audio_offset st + samples_per_frame c |}).
  { assert (Hms : matrix_size (compression fm) = 16).
    { destruct (file_to_frames_inv _ _ _ _ _ Hdir)
        as (auds & _ & _ & _ & _ & Hm).
      rewrite Hm in Hfm. cbn [frames] in Hfm.
      rewrite nth_error_map in Hfm.
      destruct (nth_error (range (encode_num_frames c data)) k) as [i|];
        [|discriminate].
      cbn [option_map] in Hfm. inversion Hfm. reflexivity. }
    pose proof (decode_frame_ok c dir st (Z.of_nat k) fm px) as Hok.
    cbv zeta in Hok. rewrite Hms in Hok. apply Hok.
    - unfold lookup. rewrite Nat2Z.id, Hfm. reflexivity.
    - unfold lookup. rewrite Nat2Z.id, Hpx. reflexivity.
    - lia.
    - exact Hoff.
    - exact Haud. }
  destruct (file_to_frames_inv _ _ _ _ _ Hdir) as (auds & _ & _ & Hf & _ & Hm).
  rewrite Hm in Hfm. cbn [frames] in Hfm. rewrite Hf in Hpx.
  assert (Hk : (k < Z.to_nat (encode_num_frames c data))%nat).
  { rewrite <- range_length, <- (length_map (frame_meta c data)).
    apply nth_error_Some. rewrite Hfm. discriminate. }
  rewrite nth_error_map, nth_error_range in Hfm, Hpx by exact Hk.
  simpl in Hfm, Hpx. inversion Hfm; subst fm. inversion Hpx; subst px.
  clear Hfm Hpx. cbv zeta.
  destruct (frame_meta_bounds c data (Z.of_nat k) Hvalid)
    as (Hle & Hvb & Hcap & _). cbv zeta in Hle, Hvb, Hcap.
  set (fm := frame_meta c data (Z.of_nat k)) in *.
  set (comp := _apply_rle (differential (video_data c data (Z.of_nat k)))).
  assert (Hcl : compressed_length (compression fm) = len comp) by reflexivity.
  pose proof (compressed_bytes_encoded c data (Z.of_nat k) Hvalid) as Hbytes.
  cbv zeta in Hbytes. fold fm comp in Hbytes.
  split; [reflexivity|]. split; [symmetry; exact Hvb|].
  split; [exact Hcl|]. split; [exact Hle|]. split; [reflexivity|].
  split; [exact Hbytes|]. split; [|split].
  - intros Hlt. split.
    + rewrite len_zeros. lia.
    + rewrite Hbytes. intros Heq.
      apply (f_equal len) in Heq. rewrite len_app, len_zeros in Heq. lia.
  - exact Hdec.
  - rewrite Hdec, Hbytes. reflexivity.
Qed.

Lemma C10_rle_input_is_uncompressed_length_prefix_witness :
  valid_geometry example_converter /\
  file_to_frames_with_audio example_matrix_audio example_converter
    example_data 30 = Ok example_dir /\
  0 <= audio_offset dec_init /\
  audio_offset dec_init + 16 * 16 <= len (audio_raw example_dir) /\
  decode_frame example_converter example_dir dec_init 0
  = Ok {| all_data :=
            take 6 (differential_decode 5
                      (_decode_rle ([255; 0; 6] ++ zeros (6 - 3))))
            ++ [9; 8; 7; 6];
          audio_offset := 260 |}.
Proof.
  split; [repeat split|]. split; [vm_compute; reflexivity|].
  split; [discriminate|]. split; [vm_compute; discriminate|].
  pose proof (C10_rle_input_is_uncompressed_length_prefix
                example_matrix_audio example_converter example_data 30
                example_dir 0%nat
                (nth 0 (frames (metadata_json example_dir))
                   (frame_meta example_converter [] 0))
                (nth 0 (frame_files example_dir) [])
                dec_init
                example_converter_valid example_dir_encoded
                eq_refl eq_refl) as H.
  cbv zeta in H.
  destruct H as (_ & _ & _ & _ & _ & _ & _ & _ & H);
    [discriminate | vm_compute; discriminate |].
  exact H.
Defined.

(** ** Capacities *)

(** C8 (as the code has it).  For every geometry the video capacity is
    [width * height * 3] and the audio capacity is
    [(sample_rate // 30) * audio_channels * 2]: the divisor is the fixed
    30 of [__init__], whatever [fps] the encode pass is given.  The [fps]
    argument is only recorded in the metadata; every frame image has the
    video capacity as its size and [audio.raw] holds the audio capacity
    per frame. *)
Theorem C8_capacities_assume_30_fps (matrix_audio : list Z) (c : Converter)
  (data : list Z) (fps_arg : Z) (dir : Artifacts) :
  valid_geometry c ->
  file_to_frames_with_audio matrix_audio c data fps_arg = Ok dir ->
  bytes_per_frame_video c = width c * height c * 3 /\
  bytes_per_frame_audio c = sample_rate c / 30 * audio_channels c * 2 /\
  fps (metadata_json dir) = fps_arg /\
  Forall (fun px => len px = width c * height c * 3) (frame_files dir) /\
  2 * len (audio_raw dir)
  = num_frames (metadata_json dir)
    * (sample_rate c / 30 * audio_channels c * 2).
Proof.
  intros Hvalid Hdir.
  pose proof (encoded_audio_length _ _ _ _ _ Hvalid Hdir) as Ha.
  destruct (file_to_frames_inv _ _ _ _ _ Hdir) as (auds & _ & _ & Hf & _ & Hm).
  split; [reflexivity|]. split; [reflexivity|].
  rewrite Hm. cbn [fps num_frames]. split; [reflexivity|]. split.
  - rewrite Hf. apply Forall_forall. intros px Hin.
    apply in_map_iff in Hin. destruct Hin as (k & <- & _).
    unfold frame_pixels. rewrite (fit_video_length c Hvalid). reflexivity.
  - rewrite Ha. unfold samples_per_frame. lia.
Qed.

Lemma C8_capacities_assume_30_fps_witness :
  valid_geometry example_converter /\
  file_to_frames_with_audio example_matrix_audio example_converter
    example_data 60 = Ok example_dir_60 /\
  bytes_per_frame_audio example_converter = 7800 / 30 * 1 * 2 /\
  fps (metadata_json example_dir_60) = 60.
Proof.
  split; [repeat split|]. split; [vm_compute; reflexivity|].
  pose proof (C8_capacities_assume_30_fps example_matrix_audio
                example_converter example_data 60 example_dir_60
                example_converter_valid) as H.
  assert (He : file_to_frames_with_audio example_matrix_audio
                 example_converter example_data 60 = Ok example_dir_60)
    by (vm_compute; reflexivity).
  destruct (H He) as (_ & H2 & H3 & _).
  split; [exact H2 | exact H3].
Defined.

(** C8, refuted as stated: with [fps = 60] the default converter still
    has 6400 audio bytes per frame, not [(48000 // 60) * 2 * 2 = 3200]. *)
Lemma C8_audio_capacity_ignores_fps :
  ~ (forall (c : Converter) (fps_arg : Z),
        valid_geometry c -> 0 < fps_arg ->
        bytes_per_frame_video c = width c * height c * 3 /\
        bytes_per_frame_audio c
        = sample_rate c / fps_arg * audio_channels c * 2).
Proof.
  intros H.
  destruct (H default_converter 60 default_converter_valid eq_refl) as [_ H2].
  vm_compute in H2. discriminate.
Qed.

(** ** The empty file *)

(** C7.  For the empty file [num_frames] is 0 and the loop writes no
    frame, but the encode pass does not complete: [np.concatenate] is
    given the empty list of sample arrays and raises [ValueError], so no
    audio and no metadata are written and there is nothing to decode. *)
Theorem C7_empty_file_encode_raises (matrix_audio : list Z) (c : Converter)
  (fps_arg : Z) :
  valid_geometry c ->
  encode_num_frames c [] = 0 /\
  encode_loop matrix_audio c [] (range (encode_num_frames c [])) enc_init
  = Ok enc_init /\
  file_to_frames_with_audio matrix_audio c [] fps_arg = Raise ValueError /\
  round_trip matrix_audio c [] fps_arg = Raise ValueError.
Proof.
  intros Hvalid.
  pose proof (capacities_positive c Hvalid) as (_ & _ & _ & Ht).
  assert (Hn : encode_num_frames c [] = 0) by apply ceil_div_zero.
  assert (He : file_to_frames_with_audio matrix_audio c [] fps_arg
               = Raise ValueError).
  { unfold file_to_frames_with_audio. cbv zeta.
    destruct (Z.eqb_spec (bytes_per_frame_total c) 0); [lia|].
    rewrite Hn. reflexivity. }
  split; [exact Hn|]. split; [rewrite Hn; reflexivity|].
  split; [exact He|]. unfold round_trip. rewrite He. reflexivity.
Qed.

Lemma C7_empty_file_encode_raises_witness :
  valid_geometry default_converter /\
  file_to_frames_with_audio example_matrix_audio default_converter [] 30
  = Raise ValueError.
Proof.
  split; [repeat split|].
  exact (proj1 (proj2 (proj2
    (C7_empty_file_encode_raises example_matrix_audio default_converter 30
       default_converter_valid)))).
Defined.

(** ** The audio buffer of a frame *)

Lemma zeros_nonpos (n : Z) : n <= 0 -> zeros n = [].
Proof. intros H. unfold zeros. replace (Z.to_nat n) with 0%nat by lia. reflexivity. Qed.

(** A frame that is cut from the middle of the file is a full slice:
    all the video bytes and as many overflow bytes as the whole audio
    capacity. *)
Lemma full_frame_sizes (c : Converter) (data : list Z) (k : Z) :
  valid_geometry c ->
  0 <= k -> (k + 1) * bytes_per_frame_total c <= len data ->
  video_data_size c data k = bytes_per_frame_video c /\
  len (audio_data c data k) = bytes_per_frame_audio c.
Proof.
  intros Hvalid Hk Hfull.
  pose proof (capacities_positive c Hvalid) as (Hv & _ & Ha & Ht).
  pose proof (frame_total_data_length c Hvalid data k Hk) as Hl.
  assert (Hl' : len (frame_total_data c data k) = bytes_per_frame_total c)
    by lia.
  assert (Hs : video_data_size c data k = bytes_per_frame_video c)
    by (unfold video_data_size, bytes_per_frame_total in *; lia).
  split; [exact Hs|].
  rewrite (audio_data_length c Hvalid), Hl', Hs.
  unfold bytes_per_frame_total. lia.
Qed.

(** C4.  In a full frame the overflow slice is as long as the whole
    audio capacity, which is more than the capacity less the 512 matrix
    bytes; the audio buffer is the matrix followed by the overflow bytes,
    cut to the audio capacity, so the last 512 overflow bytes are not in
    it. *)
Theorem C4_overflow_bytes_cut_off (matrix_audio : list Z) (c : Converter)
  (data : list Z) (k : Z) :
  valid_geometry c ->
  len matrix_audio = 2 * (16 * 16) ->
  2 * (16 * 16) <= bytes_per_frame_audio c ->
  0 <= k -> (k + 1) * bytes_per_frame_total c <= len data ->
  let overflow := audio_data c data k in
  let room := bytes_per_frame_audio c - 2 * (16 * 16) in
  len overflow = bytes_per_frame_audio c /\
  room < len overflow /\
  len (frame_audio_buffer matrix_audio c data k) = bytes_per_frame_audio c /\
  frame_audio_buffer matrix_audio c data k
  = matrix_audio ++ take room overflow /\
  overflow = take room overflow ++ drop room overflow /\
  len (drop room overflow) = 2 * (16 * 16).
Proof.
  intros Hvalid Hm Hbig Hk Hfull. cbv zeta.
  destruct (full_frame_sizes c data k Hvalid Hk Hfull) as (_ & Ho).
  split; [exact Ho|]. split; [lia|].
  split; [apply (frame_audio_buffer_length matrix_audio c Hvalid)|].
  split; [|split].
  - unfold frame_audio_buffer, full_audio. cbv zeta.
    rewrite zeros_nonpos by lia. rewrite app_nil_r.
    rewrite take_app_ge by lia. rewrite Hm. reflexivity.
  - symmetry. apply take_drop.
  - rewrite len_drop. lia.
Qed.

Lemma C4_overflow_bytes_cut_off_witness :
  valid_geometry default_converter /\
  len example_matrix_audio = 2 * (16 * 16) /\
  (0 + 1) * bytes_per_frame_total default_converter <= len (zeros 6227200) /\
  len (audio_data default_converter (zeros 6227200) 0) = 6400 /\
  frame_audio_buffer example_matrix_audio default_converter (zeros 6227200) 0
  = example_matrix_audio
    ++ take (6400 - 512) (audio_data default_converter (zeros 6227200) 0).
Proof.
  assert (Hm : len example_matrix_audio = 2 * (16 * 16)) by reflexivity.
  assert (Hd : (0 + 1) * bytes_per_frame_total default_converter
               <= len (zeros 6227200)).
  { rewrite len_zeros. vm_compute. discriminate. }
  split; [repeat split|]. split; [exact Hm|]. split; [exact Hd|].
  destruct (C4_overflow_bytes_cut_off example_matrix_audio default_converter
              (zeros 6227200) 0 default_converter_valid Hm)
    as (H1 & _ & _ & H4 & _); [vm_compute; discriminate | lia | exact Hd |].
  split; [exact H1 | exact H4].
Defined.

(** ** The audio cursor of the decode pass *)

(** C5.  In [audio.raw] the samples of frame [k] start at
    [k * (samples_per_frame * audio_channels)], while the decode loop
    reaches frame [k] with its cursor at [k * samples_per_frame]: from
    the second frame on the cursor is short of the frame's samples as
    soon as there is more than one channel. *)
Theorem C5_decode_cursor_misaligned (matrix_audio : list Z) (c : Converter)
  (data : list Z) (fps_arg k : Z) :
  valid_geometry c ->
  256 <= samples_per_frame c * audio_channels c ->
  0 <= k < encode_num_frames c data ->
  exists (dir : Artifacts) (before a rest : list Z) (dst : DecState),
    file_to_frames_with_audio matrix_audio c data fps_arg = Ok dir /\
    audio_raw dir = before ++ a ++ rest /\
    samples_of matrix_audio c data k a /\
    len before = k * (samples_per_frame c * audio_channels c) /\
    decode_loop c dir (range k) dec_init = Ok dst /\
    audio_offset dst = k * samples_per_frame c /\
    (1 < audio_channels c -> 0 < k -> audio_offset dst < len before).
Proof.
  intros Hvalid Hroom Hk.
  pose proof (capacities_positive c Hvalid) as (_ & Hs & _ & Ht).
  assert (Hdata : 0 < len data).
  { pose proof (len_nonneg data) as Hn.
    destruct (Z.eq_dec (len data) 0) as [E|E]; [|lia].
    unfold encode_num_frames in Hk. rewrite E, ceil_div_zero in Hk. lia. }
  destruct (file_to_frames_ok matrix_audio c data Hvalid fps_arg Hdata)
    as (dir & Hdir).
  destruct (file_to_frames_inv _ _ _ _ _ Hdir) as (auds & HF & _ & _ & Ha & _).
  destruct (range_split (encode_num_frames c data) k Hk) as (l2 & Hr).
  rewrite Hr in HF. apply Forall2_app_inv_l in HF.
  destruct HF as (auds1 & auds2 & HF1 & HF2 & ->).
  inversion HF2 as [|? a ? rest Hka _]; subst.
  destruct (decode_prefix_ok matrix_audio c data fps_arg dir Hvalid Hroom Hdir
              (Z.to_nat k)) as (dst & Hdst & Hoff); [lia|].
  rewrite Z2Nat.id in Hdst, Hoff by lia.
  exists dir, (concat auds1), a, (concat rest), dst.
  assert (Hb : len (concat auds1)
               = k * (samples_per_frame c * audio_channels c)).
  { rewrite (samples_concat_length _ _ _ Hvalid _ _ HF1).
    unfold len. rewrite range_length. f_equal. lia. }
  split; [exact Hdir|]. split; [rewrite Ha, concat_app; reflexivity|].
  split; [exact Hka|]. split; [exact Hb|]. split; [exact Hdst|].
  split; [exact Hoff|]. intros Hc Hk0. rewrite Hoff, Hb. nia.
Qed.

Lemma C5_decode_cursor_misaligned_witness :
  valid_geometry default_converter /\
  256 <= samples_per_frame default_converter
         * audio_channels default_converter /\
  0 <= 1 < encode_num_frames default_converter (zeros 6227201) /\
  exists (dir : Artifacts) (before a rest : list Z) (dst : DecState),
    file_to_frames_with_audio example_matrix_audio default_converter
      (zeros 6227201) 30 = Ok dir /\
    audio_raw dir = before ++ a ++ rest /\
    samples_of example_matrix_audio default_converter (zeros 6227201) 1 a /\
    len before = 3200 /\
    decode_loop default_converter dir (range 1) dec_init = Ok dst /\
    audio_offset dst = 1600.
Proof.
  assert (Hk : 0 <= 1 < encode_num_frames default_converter (zeros 6227201)).
  { unfold encode_num_frames. rewrite len_zeros. vm_compute.
    split; [discriminate | reflexivity]. }
  split; [repeat split|]. split; [vm_compute; discriminate|].
  split; [exact Hk|].
  destruct (C5_decode_cursor_misaligned example_matrix_audio default_converter
              (zeros 6227201) 30 1 default_converter_valid)
    as (dir & before & a & rest & dst & H1 & H2 & H3 & H4 & H5 & H6 & _);
    [vm_compute; discriminate | exact Hk |].
  exists dir, before, a, rest, dst.
  repeat (split; [assumption|]). exact H6.
Defined.

(** ** Round trip of a file that fits the video capacity of one frame *)

Lemma short_file_frame (c : Converter) (data : list Z) :
  valid_geometry c ->
  0 < len data <= bytes_per_frame_video c ->
  encode_num_frames c data = 1 /\
  video_data_size c data 0 = len data /\
  video_data c data 0 = data /\
  audio_data c data 0 = [].
Proof.
  intros Hvalid Hlen.
  pose proof (capacities_positive c Hvalid) as (Hv & _ & Ha & Ht).
  assert (Hn : encode_num_frames c data = 1).
  { pose proof (ceil_div_spec (len data) (bytes_per_frame_total c) Ht) as Hc.
    unfold encode_num_frames, bytes_per_frame_total in *. nia. }
  assert (Hf : frame_total_data c data 0 = data).
  { unfold frame_total_data. cbv zeta. rewrite Z.mul_0_l, Z.add_0_l.
    rewrite Z.min_r by (unfold bytes_per_frame_total; lia).
    unfold slice, drop. simpl skipn. apply take_all. lia. }
  assert (Hs : video_data_size c data 0 = len data).
  { unfold video_data_size. rewrite Hf. lia. }
  split; [exact Hn|]. split; [exact Hs|]. split.
  - unfold video_data. rewrite Hs, Hf. apply take_all. lia.
  - unfold audio_data. rewrite Hs, Hf, Z.ltb_irrefl. reflexivity.
Qed.

(** The whole pipeline on such a file: one frame, no overflow; the
    decoder reads the compressed stream with its padding, undoes the two
    codings and keeps [len data] bytes. *)
Lemma round_trip_short_file (matrix_audio : list Z) (c : Converter)
  (data : list Z) (fps_arg : Z) :
  valid_geometry c ->
  256 <= samples_per_frame c * audio_channels c ->
  0 < len data <= bytes_per_frame_video c ->
  let compressed := _apply_rle (differential data) in
  let decoded :=
    take (len data)
      (differential_decode (hd 0 data)
         (_decode_rle (compressed ++ zeros (len data - len compressed)))) in
  round_trip matrix_audio c data fps_arg
  = Ok (take (len data) decoded, len (take (len data) decoded) =? len data).
Proof.
  intros Hvalid Hroom Hlen. cbv zeta.
  destruct (short_file_frame c data Hvalid Hlen) as (Hn & Hs & Hv & Ha).
  destruct (file_to_frames_ok matrix_audio c data Hvalid fps_arg
              ltac:(lia)) as (dir & Hdir).
  unfold round_trip. rewrite Hdir. cbn [bind].
  unfold frames_with_audio_to_file. cbv zeta.
  destruct (file_to_frames_inv _ _ _ _ _ Hdir) as (auds & _ & _ & _ & _ & Hm).
  rewrite Hm. cbn [num_frames original_size]. rewrite Hn.
  change (range 1) with [0]. cbn [decode_loop].
  rewrite (decode_encoded_frame matrix_audio c data fps_arg dir Hvalid Hroom
             Hdir dec_init 0) by (try reflexivity; lia).
  cbn [bind all_data dec_init app].
  rewrite (compressed_bytes_encoded c data 0 Hvalid).
  unfold frame_meta.
  cbn [compression audio_bytes original_length compressed_length
       differential_base create_compression_matrix snd].
  rewrite Hv, Ha.
  change (len []) with 0. change (take 0 _) with (@nil Z).
  rewrite !app_nil_r.
  replace (match data with [] => 0 | x :: _ => x end) with (hd 0 data)
    by (destruct data; reflexivity).
  reflexivity.
Qed.

(** C1.  The round trip is not the identity: at every valid geometry
    whose audio buffer holds the matrix samples (the default one among
    them) the two-byte file [[1; 2]] is encoded into one frame with a
    [compression_ratio] of at most 1 and decoded, with the size check
    passed, to [[1; 1]]. *)
Theorem C1_round_trip_not_identity (matrix_audio : list Z) (c : Converter)
  (fps_arg : Z) :
  valid_geometry c ->
  256 <= samples_per_frame c * audio_channels c ->
  (exists dir,
      file_to_frames_with_audio matrix_audio c [1; 2] fps_arg = Ok dir /\
      Forall (fun fm => (compression_ratio (compression fm) <= 1)%Q)
        (frames (metadata_json dir))) /\
  round_trip matrix_audio c [1; 2] fps_arg = Ok ([1; 1], true) /\
  [1; 1] <> [1; 2].
Proof.
  intros Hvalid Hroom.
  pose proof (capacities_positive c Hvalid) as (Hv & _).
  assert (Hlen : 0 < len [1; 2] <= bytes_per_frame_video c).
  { change (len [1; 2]) with 2.
    destruct Hvalid as (Hw & Hh & _).
    unfold bytes_per_frame_video, pixels_per_frame in *. nia. }
  split; [|split; [|discriminate]].
  - destruct (file_to_frames_ok matrix_audio c [1; 2] Hvalid fps_arg
                ltac:(reflexivity)) as (dir & Hdir).
    exists dir. split; [exact Hdir|].
    pose proof (encoded_frames_fit _ _ _ _ _ Hvalid Hdir) as HF.
    apply Forall_forall. intros fm Hin.
    rewrite Forall_forall in HF. apply (HF fm Hin).
  - rewrite (round_trip_short_file matrix_audio c [1; 2] fps_arg Hvalid Hroom
               Hlen).
    reflexivity.
Qed.

Lemma C1_round_trip_not_identity_witness :
  valid_geometry default_converter /\
  256 <= samples_per_frame default_converter
         * audio_channels default_converter /\
  round_trip example_matrix_audio default_converter [1; 2] 30
  = Ok ([1; 1], true).
Proof.
  split; [repeat split|]. split; [vm_compute; discriminate|].
  refine (proj1 (proj2
    (C1_round_trip_not_identity example_matrix_audio default_converter 30
       default_converter_valid _))).
  vm_compute. discriminate.
Defined.

(** ** Ten thousand equal bytes *)

Lemma repeated_A_fits :
  0 < len repeated_A <= bytes_per_frame_video default_converter.
Proof. vm_compute. split; [reflexivity | discriminate]. Qed.

(** C9 (as the code has it).  For [bytes([65] * 10000)] at the default
    geometry there is one frame; its differential sequence is 10000
    zeros, which the run-length coder writes as one escape triple per run
    of at most 255: 39 triples [255, 0, 255] and one [255, 0, 55], 120
    bytes.  The recorded [compression_ratio] is [120 / 10000 = 0.012],
    which is below 0.02. *)
Theorem C9_repeated_A_compression (matrix_audio : list Z) (fps_arg : Z) :
  exists dir,
    file_to_frames_with_audio matrix_audio default_converter repeated_A
      fps_arg = Ok dir /\
    num_frames (metadata_json dir) = 1 /\
    differential repeated_A = zeros 10000 /\
    _apply_rle (differential repeated_A)
    = concat (repeat [255; 0; 255] 39) ++ [255; 0; 55] /\
    frames (metadata_json dir)
    = [ {| frame_idx := 0;
           video_bytes := 10000;
           audio_bytes := 0;
           compression :=
             {| original_length := 10000;
                compressed_length := 120;
                compression_ratio := 120 # 10000;
                matrix_size := 16;
                differential_base := 65 |} |} ] /\
    (120 # 10000 == 12 # 1000)%Q /\
    (120 # 10000 < 2 # 100)%Q.
Proof.
  pose proof default_converter_valid as Hvalid.
  destruct (short_file_frame default_converter repeated_A Hvalid
              repeated_A_fits) as (Hn & _).
  destruct (file_to_frames_ok matrix_audio default_converter repeated_A
              Hvalid fps_arg (proj1 repeated_A_fits)) as (dir & Hdir).
  destruct (file_to_frames_inv _ _ _ _ _ Hdir) as (auds & _ & _ & _ & _ & Hm).
  exists dir. split; [exact Hdir|]. rewrite Hm. cbn [num_frames frames].
  rewrite Hn. split; [reflexivity|].
  split; [vm_compute; reflexivity|]. split; [vm_compute; reflexivity|].
  split; [vm_compute; reflexivity|]. split; reflexivity.
Qed.

(** C9, refuted as stated: the recorded ratio of that frame is not
    below 0.01. *)
Lemma C9_ratio_not_below_one_percent :
  ~ (compression_ratio
       (compression (frame_meta default_converter repeated_A 0)) < 1 # 100)%Q.
Proof. vm_compute. discriminate. Qed.

(** What the decode pass makes of that frame: the padding is decoded as
    well, the running sums stay 0 and only the first byte is restored. *)
Lemma repeated_A_round_trip (matrix_audio : list Z) (fps_arg : Z) :
  round_trip matrix_audio default_converter repeated_A fps_arg
  = Ok (65 :: zeros 9999, true).
Proof.
  rewrite (round_trip_short_file matrix_audio default_converter repeated_A
             fps_arg default_converter_valid
             ltac:(vm_compute; discriminate) repeated_A_fits).
  vm_compute. reflexivity.
Qed.

(** * Further properties of the code *)

(** ** Cutting a file into frames *)

Lemma slice_min_len {A : Type} (a e : Z) (l : list A) :
  slice a (Z.min e (len l)) l = slice a e l.
Proof.
  unfold slice. f_equal. destruct (Z.le_ge_cases e (len l)).
  - rewrite Z.min_l by assumption. reflexivity.
  - rewrite Z.min_r by assumption. rewrite !take_all by lia. reflexivity.
Qed.

Lemma take_add_slice {A : Type} (a b : Z) (l : list A) :
  0 <= a -> 0 <= b -> take (a + b) l = take a l ++ slice a (a + b) l.
Proof.
  intros Ha Hb. unfold slice, drop, take.
  rewrite <- (firstn_skipn (Z.to_nat a) (firstn (Z.to_nat (a + b)) l)) at 1.
  f_equal. rewrite firstn_firstn. f_equal. lia.
Qed.

(** The first [n] slices of width [w], put together, are the first
    [n * w] bytes. *)
Lemma slices_concat {A : Type} (w : Z) (l : list A) (n : nat) :
  0 <= w ->
  concat (map (fun k => slice (k * w) (Z.min (k * w + w) (len l)) l)
            (range (Z.of_nat n)))
  = take (Z.of_nat n * w) l.
Proof.
  intros Hw. induction n as [|n IH]; [reflexivity|].
  replace (Z.of_nat (S n)) with (Z.of_nat n + 1) by lia.
  rewrite range_succ, map_app, concat_app, IH by lia.
  cbn [map concat]. rewrite app_nil_r, slice_min_len.
  replace ((Z.of_nat n + 1) * w) with (Z.of_nat n * w + w) by lia.
  symmetry. apply take_add_slice; nia.
Qed.

(** [math.ceil(a / b)] is also [(a + b - 1) // b], the formula of
    [example_different_resolutions]. *)
Lemma ceil_div_floor_formula (a b : Z) :
  0 < b -> ceil_div a b = (a + b - 1) / b.
Proof.
  intros Hb. pose proof (ceil_div_spec a b Hb) as Hc.
  apply (Z.div_unique_pos _ _ _ (a + b - 1 - ceil_div a b * b)); lia.
Qed.

Lemma ceil_div_nonneg (a b : Z) : 0 <= a -> 0 < b -> 0 <= ceil_div a b.
Proof. intros Ha Hb. pose proof (ceil_div_spec a b Hb). nia. Qed.

(** X4.  The number of frames is the least [n] whose capacity
    [n * bytes_per_frame_total] holds the file, and it does not decrease
    when the file grows. *)
Theorem encode_num_frames_least (c : Converter) (data data' : list Z) :
  valid_geometry c ->
  let n := encode_num_frames c data in
  0 <= n /\
  len data <= n * bytes_per_frame_total c /\
  (forall m, 0 <= m -> len data <= m * bytes_per_frame_total c -> n <= m) /\
  (len data <= len data' -> n <= encode_num_frames c data').
Proof.
  intros Hvalid. cbv zeta.
  pose proof (capacities_positive c Hvalid) as (_ & _ & _ & Ht).
  pose proof (ceil_div_spec (len data) (bytes_per_frame_total c) Ht) as Hc.
  pose proof (ceil_div_spec (len data') (bytes_per_frame_total c) Ht) as Hc'.
  pose proof (len_nonneg data) as Hn.
  unfold encode_num_frames.
  split; [apply ceil_div_nonneg; assumption|]. split; [lia|]. split.
  - intros m Hm Hle. nia.
  - intros Hle. nia.
Qed.

Lemma encode_num_frames_least_witness :
  valid_geometry example_converter /\
  encode_num_frames example_converter example_data = 1 /\
  len example_data <= 1 * bytes_per_frame_total example_converter.
Proof.
  split; [repeat split|]. split; [reflexivity|].
  exact (proj1 (proj2 (encode_num_frames_least example_converter example_data
                         example_data example_converter_valid))).
Defined.

(** X5.  The frames cut the file without gaps or overlaps: the video
    slice and the overflow slice of every frame, taken in frame order,
    are the file. *)
Theorem frame_slices_tile_file (c : Converter) (data : list Z) :
  valid_geometry c ->
  concat (map (fun k => video_data c data k ++ audio_data c data k)
            (range (encode_num_frames c data)))
  = data.
Proof.
  intros Hvalid.
  pose proof (capacities_positive c Hvalid) as (_ & _ & _ & Ht).
  pose proof (encode_num_frames_least c data data Hvalid) as (Hn & Hcap & _).
  cbv zeta in Hn, Hcap.
  rewrite (map_ext _ (frame_total_data c data))
    by (intros k; apply (video_audio_split c Hvalid)).
  unfold frame_total_data. cbv zeta.
  rewrite <- (Z2Nat.id (encode_num_frames c data)) at 1 by exact Hn.
  rewrite slices_concat by lia. apply take_all. lia.
Qed.

Lemma frame_slices_tile_file_witness :
  valid_geometry example_converter /\
  concat (map (fun k => video_data example_converter example_data k
                        ++ audio_data example_converter example_data k)
            (range (encode_num_frames example_converter example_data)))
  = example_data.
Proof.
  split; [repeat split|].
  exact (frame_slices_tile_file example_converter example_data
           example_converter_valid).
Defined.

(** ** The text of [metadata.txt] *)

Lemma file_lines_from_line (cur L rest : pystr) :
  no_line_break L ->
  file_lines_from cur ((L ++ [LF]) ++ rest)
  = (cur ++ L) :: file_lines_from [] rest.
Proof.
  revert cur. induction L as [|c L IH]; intros cur [Hlf Hcr].
  - cbn. rewrite app_nil_r. reflexivity.
  - cbn [app file_lines_from].
    destruct (Ascii.eqb_spec c LF) as [->|_]; [elim Hlf; left; reflexivity|].
    destruct (Ascii.eqb_spec c CR) as [->|_]; [elim Hcr; left; reflexivity|].
    rewrite IH.
    + rewrite <- app_assoc. reflexivity.
    + split; intros H; [apply Hlf | apply Hcr]; right; exact H.
Qed.

Lemma nonspace_no_line_break (s : pystr) :
  Forall (fun c => is_space c = false) s -> no_line_break s.
Proof.
  intros H. rewrite Forall_forall in H.
  split; intros Hin; apply H in Hin; discriminate.
Qed.

Lemma no_line_break_app (s t : pystr) :
  no_line_break s -> no_line_break t -> no_line_break (s ++ t).
Proof.
  intros [H1 H2] [H3 H4]. split; intros H; apply in_app_or in H; tauto.
Qed.

Lemma lstrip_app (s t : pystr) :
  not_blank s -> lstrip (s ++ t) = lstrip s ++ t.
Proof.
  induction s as [|c s IH]; intros (x & Hin & Hx).
  - destruct Hin.
  - cbn [app lstrip]. destruct (is_space c) eqn:Hc; [|reflexivity].
    apply IH. destruct Hin as [->|Hin]; [congruence|].
    exists x. split; assumption.
Qed.

Lemma lstrip_spaces (s t : pystr) :
  Forall (fun c => is_space c = true) s -> lstrip (s ++ t) = lstrip t.
Proof.
  induction 1 as [|c s Hc _ IH]; [reflexivity|].
  cbn [app lstrip]. rewrite Hc. exact IH.
Qed.

Lemma not_blank_rev (s : pystr) : not_blank s -> not_blank (rev s).
Proof.
  intros (x & Hin & Hx). exists x. split; [|exact Hx].
  apply in_rev. rewrite rev_involutive. exact Hin.
Qed.

Lemma lstrip_nonspace (s : pystr) :
  Forall (fun c => is_space c = false) s -> lstrip s = s.
Proof.
  intros H. destruct H as [|c s Hc _]; [reflexivity|].
  cbn [lstrip]. rewrite Hc. reflexivity.
Qed.

Lemma strip_nonspace (s : pystr) :
  Forall (fun c => is_space c = false) s -> py_strip s = s.
Proof.
  intros H. unfold py_strip, rstrip. rewrite (lstrip_nonspace s H).
  rewrite lstrip_nonspace by (apply Forall_rev; exact H).
  apply rev_involutive.
Qed.

Lemma split_colon_space_key (key value : pystr) :
  forallb (fun c => negb (Ascii.eqb c ":")) key = true ->
  split_colon_space (key ++ lit ": " ++ value) = Some (key, value).
Proof.
  induction key as [|c key IH]; intros H.
  - reflexivity.
  - cbn [forallb] in H. apply andb_true_iff in H. destruct H as [Hc Hk].
    apply negb_true_iff in Hc.
    cbn [app split_colon_space].
    destruct (key ++ lit ": " ++ value) as [|c2 r2] eqn:Hr.
    + destruct key; discriminate.
    + rewrite Hc. cbn [andb]. rewrite IH by exact Hk. reflexivity.
Qed.

(** The line of a key and a value that is not blank, stripped. *)
Lemma strip_metadata_line (key value : pystr) :
  plain_key key = true -> not_blank value ->
  split_colon_space (py_strip (key ++ lit ": " ++ value))
  = Some (key, rstrip value).
Proof.
  intros Hk Hv. unfold plain_key in Hk. apply andb_true_iff in Hk.
  destruct Hk as [Hhd Hcol].
  destruct key as [|c key]; [discriminate|]. apply negb_true_iff in Hhd.
  unfold py_strip.
  replace (lstrip ((c :: key) ++ lit ": " ++ value))
    with ((c :: key) ++ lit ": " ++ value)
    by (cbn [app lstrip]; rewrite Hhd; reflexivity).
  unfold rstrip at 1. rewrite app_assoc, rev_app_distr.
  rewrite lstrip_app by (apply not_blank_rev; exact Hv).
  rewrite rev_app_distr, rev_involutive. fold (rstrip value).
  rewrite <- app_assoc. apply split_colon_space_key. exact Hcol.
Qed.

(** ** Numbers as text *)

Lemma digits_nonspace (u : Decimal.uint) :
  Forall (fun c => is_space c = false) (digits_of_uint u).
Proof.
  induction u; cbn [digits_of_uint]; constructor; try reflexivity; assumption.
Qed.

Lemma py_str_nonspace (z : Z) :
  Forall (fun c => is_space c = false) (py_str z).
Proof.
  unfold py_str. destruct (Z.to_int z).
  - apply digits_nonspace.
  - constructor; [reflexivity | apply digits_nonspace].
Qed.

Lemma py_str_not_blank (z : Z) : not_blank (py_str z).
Proof.
  pose proof (py_str_nonspace z) as H.
  assert (Hn : py_str z <> []).
  { unfold py_str. destruct z as [| p | p]; cbn [Z.to_int].
    - discriminate.
    - pose proof (DecimalPos.Unsigned.to_uint_nonnil p) as Hp.
      destruct (Pos.to_uint p); try discriminate. congruence.
    - discriminate. }
  destruct (py_str z) as [|c r]; [congruence|].
  exists c. split; [left; reflexivity|]. inversion H; assumption.
Qed.

Lemma parse_digits_digits (u : Decimal.uint) :
  u <> Decimal.Nil -> parse_digits (digits_of_uint u) = Some u.
Proof.
  induction u as [|d IH|d IH|d IH|d IH|d IH|d IH|d IH|d IH|d IH|d IH];
    intros Hn; [congruence|..];
    (destruct d; [reflexivity|..];
     cbn [digits_of_uint parse_digits digit_of_char Ascii.eqb Bool.eqb
          option_map] in *;
     rewrite IH by discriminate; reflexivity).
Qed.

Lemma nzhead_not_D0 (l l' : Decimal.uint) :
  Decimal.nzhead l <> Decimal.D0 l'.
Proof. induction l; cbn [Decimal.nzhead]; try discriminate. exact IHl. Qed.

Lemma of_uint_acc_lower (l : Decimal.uint) (acc : positive) :
  Z.pos acc * 10 ^ Z.of_nat (Decimal.nb_digits l)
  <= Z.pos (Pos.of_uint_acc l acc).
Proof.
  revert acc. induction l as [|l IH|l IH|l IH|l IH|l IH|l IH|l IH|l IH|l IH|l IH];
    intros acc; cbn [Pos.of_uint_acc Decimal.nb_digits];
    [change (10 ^ Z.of_nat 0) with 1; lia|..];
    (rewrite Nat2Z.inj_succ, Z.pow_succ_r by lia;
     etransitivity; [|apply IH];
     pose proof (Z.pow_pos_nonneg 10 (Z.of_nat (Decimal.nb_digits l))
                   ltac:(lia) ltac:(lia));
     nia).
Qed.

(** A positive number below [10 ^ k] is written with at most [k]
    digits. *)
Lemma to_uint_nb_digits (p : positive) (k : Z) :
  Z.pos p < 10 ^ k ->
  Z.of_nat (Decimal.nb_digits (Pos.to_uint p)) <= k.
Proof.
  intros Hp.
  assert (Hk : 0 <= k).
  { destruct (Z.le_gt_cases 0 k) as [H|H]; [exact H|].
    rewrite Z.pow_neg_r in Hp by exact H. lia. }
  pose proof (DecimalPos.Unsigned.of_to p) as Hof.
  pose proof (DecimalPos.Unsigned.to_of (Pos.to_uint p)) as Hto.
  rewrite Hof in Hto. change (N.to_uint (N.pos p)) with (Pos.to_uint p) in Hto.
  pose proof (DecimalPos.Unsigned.to_uint_nonzero p) as Hnz.
  assert (Hacc : forall l acc,
             Pos.to_uint p <> Decimal.D0 l ->
             Pos.of_uint (Pos.to_uint p) = N.pos (Pos.of_uint_acc l acc) ->
             Decimal.nb_digits (Pos.to_uint p) = S (Decimal.nb_digits l) ->
             Z.of_nat (Decimal.nb_digits (Pos.to_uint p)) <= k).
  { intros l acc _ He Hn. rewrite Hof in He.
    assert (He' : p = Pos.of_uint_acc l acc) by congruence.
    pose proof (of_uint_acc_lower l acc) as Hlow. rewrite <- He' in Hlow.
    assert (Hlt : 10 ^ Z.of_nat (Decimal.nb_digits l) < 10 ^ k).
    { pose proof (Z.pow_pos_nonneg 10 (Z.of_nat (Decimal.nb_digits l))
                    ltac:(lia) ltac:(lia)). nia. }
    apply Z.pow_lt_mono_r_iff in Hlt; [|lia|exact Hk].
    rewrite Hn, Nat2Z.inj_succ. lia. }
  destruct (Pos.to_uint p) as [|l|l|l|l|l|l|l|l|l|l] eqn:Hu;
    [cbn; lia | | eapply Hacc; [discriminate | reflexivity | reflexivity] ..].
  exfalso. unfold Decimal.unorm in Hto. cbn [Decimal.nzhead] in Hto.
  pose proof (nzhead_not_D0 l) as Hn0.
  destruct (Decimal.nzhead l); try discriminate;
    [apply Hnz; congruence | eapply Hn0; reflexivity].
Qed.

Lemma digits_head (u : Decimal.uint) :
  u <> Decimal.Nil ->
  exists c r, digits_of_uint u = c :: r /\
              Ascii.eqb c "-" = false /\ Ascii.eqb c "+" = false.
Proof.
  intros Hu. destruct u; [congruence|..];
    eexists; eexists; (split; [reflexivity|]); split; reflexivity.
Qed.

(** [int(str(z)) == z] for the numbers within the digit limit. *)
Lemma py_int_py_str (z : Z) :
  Z.abs z < 10 ^ int_max_str_digits -> py_int (py_str z) = Ok z.
Proof.
  intros Hz0.
  unfold py_int. cbv zeta. rewrite strip_nonspace by apply py_str_nonspace.
  pose proof (DecimalZ.of_to z) as Hz.
  unfold py_str. destruct z as [| p | p]; cbn [Z.to_int] in *.
  - reflexivity.
  - pose proof (DecimalPos.Unsigned.to_uint_nonnil p) as Hp.
    pose proof (parse_digits_digits (Pos.to_uint p) Hp) as Hd.
    pose proof (to_uint_nb_digits p _ Hz0) as Hn.
    destruct (digits_head _ Hp) as (ch & r & He & Hm & Hpl).
    rewrite He in Hd |- *. rewrite Hm, Hpl, Hd.
    cbn [option_map Decimal.abs].
    destruct (Z.ltb_spec int_max_str_digits
                (Z.of_nat (Decimal.nb_digits (Pos.to_uint p))));
      [lia | rewrite Hz; reflexivity].
  - pose proof (DecimalPos.Unsigned.to_uint_nonnil p) as Hp.
    pose proof (to_uint_nb_digits p _ Hz0) as Hn.
    cbn [Ascii.eqb Bool.eqb].
    rewrite (parse_digits_digits (Pos.to_uint p) Hp).
    cbn [option_map Decimal.abs].
    destruct (Z.ltb_spec int_max_str_digits
                (Z.of_nat (Decimal.nb_digits (Pos.to_uint p))));
      [lia | rewrite Hz; reflexivity].
Qed.

Lemma rstrip_nonspace (s : pystr) :
  Forall (fun c => is_space c = false) s -> rstrip s = s.
Proof.
  intros H. unfold rstrip.
  rewrite lstrip_nonspace by (apply Forall_rev; exact H).
  apply rev_involutive.
Qed.

(** ** Reading [metadata.txt] *)

Lemma file_lines_5 (l1 l2 l3 l4 l5 : pystr) :
  no_line_break l1 -> no_line_break l2 -> no_line_break l3 ->
  no_line_break l4 -> no_line_break l5 ->
  file_lines ((l1 ++ [LF]) ++ (l2 ++ [LF]) ++ (l3 ++ [LF]) ++ (l4 ++ [LF])
              ++ (l5 ++ [LF]))
  = [l1; l2; l3; l4; l5].
Proof.
  intros H1 H2 H3 H4 H5. unfold file_lines.
  rewrite <- (app_nil_r (l5 ++ [LF])).
  rewrite !file_lines_from_line by assumption. reflexivity.
Qed.

Lemma number_line_no_break (key : string) (z : Z) :
  forallb (fun c => negb (is_space c)) (lit key) = true ->
  no_line_break (lit key ++ lit ": " ++ py_str z).
Proof.
  intros Hk. apply no_line_break_app; [|apply no_line_break_app].
  - apply nonspace_no_line_break. apply Forall_forall. intros c Hc.
    rewrite forallb_forall in Hk. apply Hk in Hc.
    apply negb_true_iff. exact Hc.
  - split; cbn; intros [H|[H|[]]]; discriminate.
  - apply nonspace_no_line_break, py_str_nonspace.
Qed.

(** The metadata that [file_to_frames] wrote, read back: the sizes come
    out as they were written when the file name holds no line break and
    is not blank, and the sizes are within the digit limit of [int]. *)
Lemma read_metadata_written (md : BasicMetadata)
  (f : Z -> option (list Z)) :
  no_line_break (basic_original_filename md) ->
  not_blank (basic_original_filename md) ->
  Z.abs (basic_original_size md) < 10 ^ int_max_str_digits ->
  Z.abs (basic_num_frames md) < 10 ^ int_max_str_digits ->
  read_metadata {| metadata_txt_file := Some (metadata_txt md);
                   frame_png := f |}
  = Ok (basic_original_size md, basic_num_frames md).
Proof.
  intros Hbr Hbl Hsz Hnf. unfold read_metadata. cbn [metadata_txt_file bind].
  unfold metadata_txt, metadata_line.
  rewrite file_lines_5;
    [| apply no_line_break_app;
       [apply nonspace_no_line_break; repeat constructor
       | apply no_line_break_app;
         [split; cbn; intros [H|[H|[]]]; discriminate | exact Hbr]]
     | apply number_line_no_break; reflexivity ..].
  cbn [read_metadata_lines].
  rewrite strip_metadata_line by (reflexivity || exact Hbl).
  rewrite !strip_metadata_line by (reflexivity || apply py_str_not_blank).
  rewrite !(rstrip_nonspace (py_str _)) by apply py_str_nonspace.
  generalize (rstrip (basic_original_filename md)). intros name.
  generalize (py_str (basic_md_width md)) (py_str (basic_md_height md)).
  intros sw sh. cbn [bind].
  change (dict_get (lit "original_size") _)
    with (Ok (A:=pystr) (py_str (basic_original_size md))) at 1.
  cbn [bind]. rewrite py_int_py_str by exact Hsz. cbn [bind].
  change (dict_get (lit "num_frames") _)
    with (Ok (A:=pystr) (py_str (basic_num_frames md))) at 1.
  cbn [bind]. rewrite py_int_py_str by exact Hnf. reflexivity.
Qed.

(** ** The frames of the basic converter *)

Lemma zeros_app (a b : Z) : 0 <= a -> 0 <= b -> zeros a ++ zeros b = zeros (a + b).
Proof.
  intros Ha Hb. unfold zeros. rewrite <- repeat_app. f_equal. lia.
Qed.

Lemma basic_encode_loop_eq (b : BasicConverter) (data : list Z)
  (idxs : list Z) (saved : list (list Z)) :
  basic_encode_loop b data idxs saved
  = saved ++ map (basic_frame_data b data) idxs.
Proof.
  revert saved. induction idxs as [|k idxs IH]; intros saved; simpl.
  - symmetry. apply app_nil_r.
  - rewrite IH, <- app_assoc. reflexivity.
Qed.

(** A frame of the basic converter: its slice of the file and the zero
    bytes that fill it up. *)
Lemma basic_frame_data_eq (b : BasicConverter) (data : list Z) (k : Z) :
  0 < bytes_per_frame b -> 0 <= k ->
  let w := bytes_per_frame b in
  let chunk := slice (k * w) (Z.min (k * w + w) (len data)) data in
  basic_frame_data b data k = chunk ++ zeros (w - len chunk) /\
  len chunk = Z.max 0 (Z.min w (len data - k * w)) /\
  len (basic_frame_data b data k) = w.
Proof.
  intros Hw Hk. cbv zeta. unfold basic_frame_data. cbv zeta.
  set (w := bytes_per_frame b) in *.
  set (chunk := slice (k * w) (Z.min (k * w + w) (len data)) data).
  assert (Hl : len chunk = Z.max 0 (Z.min w (len data - k * w))).
  { unfold chunk. rewrite len_slice. pose proof (len_nonneg data). nia. }
  destruct (Z.ltb_spec (len chunk) w).
  - repeat split; [exact Hl|]. rewrite len_app, len_zeros. lia.
  - rewrite zeros_nonpos by lia. rewrite app_nil_r.
    repeat split; [exact Hl | lia].
Qed.

(** The first [n] frames: the first [n * w] bytes of the file and the
    padding of the last of them. *)
Lemma basic_frames_concat (b : BasicConverter) (data : list Z) (n : nat) :
  0 < bytes_per_frame b ->
  concat (map (basic_frame_data b data) (range (Z.of_nat n)))
  = take (Z.of_nat n * bytes_per_frame b) data
    ++ zeros (Z.of_nat n * bytes_per_frame b - len data).
Proof.
  intros Hw. set (w := bytes_per_frame b) in *.
  pose proof (len_nonneg data) as Hd.
  induction n as [|n IH].
  - simpl. rewrite zeros_nonpos by lia. reflexivity.
  - replace (Z.of_nat (S n)) with (Z.of_nat n + 1) by lia.
    rewrite range_succ, map_app, concat_app, IH by lia.
    cbn [map concat]. rewrite app_nil_r.
    destruct (basic_frame_data_eq b data (Z.of_nat n) Hw ltac:(lia))
      as (He & Hl & _). cbv zeta in He, Hl. fold w in He, Hl.
    rewrite He, slice_min_len in *.
    replace ((Z.of_nat n + 1) * w) with (Z.of_nat n * w + w) by lia.
    rewrite (take_add_slice (Z.of_nat n * w) w) by nia.
    set (chunk := slice (Z.of_nat n * w) (Z.of_nat n * w + w) data) in *.
    rewrite <- !app_assoc. f_equal.
    destruct (Z.le_gt_cases (len data) (Z.of_nat n * w)) as [Hfull|Hpart].
    + assert (Hc : chunk = []).
      { apply length_zero_iff_nil. unfold len in *. lia. }
      rewrite Hc. cbn [app]. change (len []) with 0.
      rewrite zeros_app by lia. f_equal. lia.
    + rewrite (zeros_nonpos (Z.of_nat n * w - len data)) by lia.
      cbn [app]. f_equal. unfold zeros. f_equal. lia.
Qed.




(** ... and otherwise appends the images in the order of the indices. *)
Lemma basic_decode_loop_present (dir : FramesDir) (idxs : list Z)
  (frames : list (list Z)) (all : list Z) :
  Forall2 (fun k fr => frame_png dir k = Some fr) idxs frames ->
  basic_decode_loop dir idxs all = Ok (all ++ concat frames).
Proof.
  intros H. revert all.
  induction H as [|k fr idxs frames Hk _ IH]; intros all.
  - cbn. rewrite app_nil_r. reflexivity.
  - cbn [basic_decode_loop concat]. rewrite Hk. cbn [bind].
    rewrite IH, <- app_assoc. reflexivity.
Qed.

Lemma Forall2_seq_nth {A : Type} (l1 l2 : list A) :
  Forall2 (fun k x => 0 <= k /\ nth_error (l1 ++ l2) (Z.to_nat k) = Some x)
    (map Z.of_nat (seq (length l1) (length l2))) l2.
Proof.
  revert l1. induction l2 as [|x l2 IH]; intros l1; [constructor|].
  cbn [length seq map]. constructor.
  - split; [lia|]. rewrite Nat2Z.id, nth_error_app2 by lia.
    rewrite Nat.sub_diag. reflexivity.
  - specialize (IH (l1 ++ [x])).
    rewrite <- app_assoc, length_app in IH. cbn [length app] in IH.
    replace (length l1 + 1)%nat with (S (length l1)) in IH by lia.
    exact IH.
Qed.

(** The directory that [file_to_frames] wrote holds its frames under
    the indices [0], [1], ... *)
Lemma written_frames (arts : BasicArtifacts) :
  Forall2 (fun k fr => frame_png (written_dir arts) k = Some fr)
    (range (len (basic_frame_files arts))) (basic_frame_files arts).
Proof.
  unfold range, len. rewrite Nat2Z.id.
  pose proof (Forall2_seq_nth [] (basic_frame_files arts)) as H.
  cbn [length app] in H.
  eapply Forall2_impl; [|exact H].
  intros k fr [Hk Hn]. cbn [written_dir frame_png].
  destruct (Z.ltb_spec k 0); [lia | exact Hn].
Qed.

Lemma py_prefix_nonneg {A : Type} (n : Z) (l : list A) :
  0 <= n -> py_prefix n l = take n l.
Proof.
  intros H. unfold py_prefix, take.
  destruct (Z.ltb_spec n 0); [lia | reflexivity].
Qed.

(** ** A blank file name *)

Lemma file_lines_from_prefix (cur p s : pystr) :
  no_line_break p ->
  file_lines_from cur (p ++ s) = file_lines_from (cur ++ p) s.
Proof.
  revert cur. induction p as [|c p IH]; intros cur [Hlf Hcr].
  - rewrite app_nil_r. reflexivity.
  - cbn [app file_lines_from].
    destruct (Ascii.eqb_spec c LF) as [->|_]; [elim Hlf; left; reflexivity|].
    destruct (Ascii.eqb_spec c CR) as [->|_]; [elim Hcr; left; reflexivity|].
    rewrite IH.
    + rewrite <- app_assoc. reflexivity.
    + split; intros H; [apply Hlf | apply Hcr]; right; exact H.
Qed.

(** The first line of a text that starts with whitespace and a line
    feed: the line read so far and some of that whitespace. *)
Lemma file_lines_from_blank (cur blank rest : pystr) :
  Forall (fun c => is_space c = true) blank ->
  exists pre lines,
    file_lines_from cur (blank ++ LF :: rest) = (cur ++ pre) :: lines /\
    Forall (fun c => is_space c = true) pre.
Proof.
  intros H. revert cur. induction H as [|c blank Hc _ IH]; intros cur.
  - exists [], (file_lines_from [] rest). split; [|constructor].
    cbn. rewrite app_nil_r. reflexivity.
  - cbn [app file_lines_from].
    destruct (Ascii.eqb c LF).
    { exists []. eexists. split; [rewrite app_nil_r; reflexivity|constructor]. }
    destruct (Ascii.eqb c CR).
    { exists [].
      destruct (blank ++ LF :: rest) as [|c2 r2];
        [|destruct (Ascii.eqb c2 LF)];
        eexists; (split; [rewrite app_nil_r; reflexivity|constructor]). }
    destruct (IH (cur ++ [c])) as (pre & lines & He & Hp).
    exists (c :: pre), lines. split.
    + rewrite He, <- app_assoc. reflexivity.
    + constructor; assumption.
Qed.

Lemma split_colon_space_colon (key : pystr) :
  forallb (fun c => negb (Ascii.eqb c ":")) key = true ->
  split_colon_space (key ++ [":"%char]) = None.
Proof.
  induction key as [|c key IH]; intros H.
  - reflexivity.
  - cbn [forallb] in H. apply andb_true_iff in H. destruct H as [Hc Hk].
    apply negb_true_iff in Hc.
    cbn [app split_colon_space].
    destruct (key ++ [":"%char]) as [|c2 r2] eqn:Hr.
    + reflexivity.
    + rewrite Hc. cbn [andb]. rewrite IH by exact Hk. reflexivity.
Qed.

(** The line of a key and a blank value: [strip] takes the space after
    the colon away, and the line no longer splits in two. *)
Lemma strip_blank_line (key value : pystr) :
  plain_key key = true -> Forall (fun c => is_space c = true) value ->
  split_colon_space (py_strip (key ++ lit ": " ++ value)) = None.
Proof.
  intros Hk Hv. unfold plain_key in Hk. apply andb_true_iff in Hk.
  destruct Hk as [Hhd Hcol].
  destruct key as [|c key]; [discriminate|]. apply negb_true_iff in Hhd.
  unfold py_strip.
  replace (lstrip ((c :: key) ++ lit ": " ++ value))
    with ((c :: key) ++ lit ": " ++ value)
    by (cbn [app lstrip]; rewrite Hhd; reflexivity).
  unfold rstrip. remember (c :: key) as k eqn:Ek.
  change (lit ": " ++ value) with ([":"%char] ++ [" "%char] ++ value).
  rewrite !rev_app_distr, <- !app_assoc.
  rewrite lstrip_spaces by (apply Forall_rev; exact Hv).
  cbn [rev app lstrip]. change (is_space " ") with true.
  change (is_space ":") with false. cbv iota.
  change (":"%char :: rev k) with ([":"%char] ++ rev k).
  rewrite rev_app_distr, rev_involutive.
  apply split_colon_space_colon. exact Hcol.
Qed.

(** ** The basic converter, end to end *)



(** X2.  The basic converter writes [ceil(size / bytes_per_frame)] frames,
    the count [(size + bytes_per_frame - 1) // bytes_per_frame] that
    [example_different_resolutions] prints, each of exactly
    [bytes_per_frame] bytes. *)
Theorem file_to_frames_frames (b : BasicConverter) (input_file : pystr)
  (data : list Z) :
  0 < basic_width b -> 0 < basic_height b ->
  exists dir,
    file_to_frames b input_file data = Ok dir /\
    basic_num_frames (basic_metadata dir)
    = (len data + bytes_per_frame b - 1) / bytes_per_frame b /\
    len (basic_frame_files dir) = basic_num_frames (basic_metadata dir) /\
    basic_original_size (basic_metadata dir) = len data /\
    Forall (fun fr => len fr = bytes_per_frame b) (basic_frame_files dir).
Proof.
  intros Hw Hh. assert (Hb : 0 < bytes_per_frame b)
    by (unfold bytes_per_frame; nia).
  unfold file_to_frames. cbv zeta.
  destruct (Z.eqb_spec (bytes_per_frame b) 0); [lia|].
  eexists. split; [reflexivity|]. cbn [basic_metadata basic_frame_files
    basic_num_frames basic_original_size].
  pose proof (ceil_div_nonneg (len data) (bytes_per_frame b)
                (len_nonneg data) Hb) as Hn.
  rewrite basic_encode_loop_eq. cbn [app].
  split; [apply ceil_div_floor_formula; exact Hb|].
  split; [unfold len at 1; rewrite length_map, range_length; lia|].
  split; [reflexivity|].
  apply Forall_forall. intros fr Hin. apply in_map_iff in Hin.
  destruct Hin as (k & <- & Hk). unfold range in Hk. apply in_map_iff in Hk.
  destruct Hk as (i & <- & _).
  apply (basic_frame_data_eq b data (Z.of_nat i) Hb). lia.
Qed.

Lemma file_to_frames_frames_witness :
  0 < basic_width {| basic_width := 2; basic_height := 1 |} /\
  exists dir,
    file_to_frames {| basic_width := 2; basic_height := 1 |}
      (lit "in/a.bin") example_data
    = Ok dir /\
    basic_num_frames (basic_metadata dir) = 2.
Proof.
  split; [reflexivity|].
  destruct (file_to_frames_frames {| basic_width := 2; basic_height := 1 |}
              (lit "in/a.bin") example_data eq_refl eq_refl)
    as (dir & H1 & H2 & _).
  exists dir. split; [exact H1 | exact H2].
Defined.

(** X1.  The basic converter reproduces every file, the empty one
    included, whose name holds no line break and is not blank, and whose
    size [int] reads back (fewer than [10 ^ 4300] bytes): decoding the
    directory that [file_to_frames] wrote gives back the bytes of the
    file. *)
Theorem basic_round_trip (b : BasicConverter) (input_file : pystr)
  (data : list Z) :
  0 < basic_width b -> 0 < basic_height b ->
  no_line_break (basename input_file) -> not_blank (basename input_file) ->
  len data < 10 ^ int_max_str_digits ->
  exists arts,
    file_to_frames b input_file data = Ok arts /\
    frames_to_file (written_dir arts) = Ok data.
Proof.
  intros Hw Hh Hbr Hbl Hsize. assert (Hb : 0 < bytes_per_frame b)
    by (unfold bytes_per_frame; nia).
  pose proof (ceil_div_nonneg (len data) (bytes_per_frame b)
                (len_nonneg data) Hb) as Hn.
  pose proof (ceil_div_spec (len data) (bytes_per_frame b) Hb) as Hc.
  unfold file_to_frames. cbv zeta.
  destruct (Z.eqb_spec (bytes_per_frame b) 0) as [Hz|_]; [lia|].
  eexists. split; [reflexivity|].
  set (nf := ceil_div (len data) (bytes_per_frame b)) in *.
  rewrite basic_encode_loop_eq. cbn [app].
  set (arts := {| basic_frame_files :=
                    map (basic_frame_data b data) (range nf);
                  basic_metadata := _ |}).
  assert (Hlen : len (basic_frame_files arts) = nf)
    by (unfold len; cbn [arts basic_frame_files];
        rewrite length_map, range_length; lia).
  pose proof (written_frames arts) as Hfr. rewrite Hlen in Hfr.
  unfold frames_to_file.
  pose proof (len_nonneg data) as Hd0.
  replace (read_metadata (written_dir arts)) with (Ok (len data, nf))
    by (symmetry; unfold written_dir; apply read_metadata_written;
        cbn [arts basic_metadata basic_original_filename
             basic_original_size basic_num_frames];
        [assumption | assumption | lia | nia]).
  cbn [bind]. rewrite (basic_decode_loop_present _ _ _ [] Hfr).
  cbn [bind app]. f_equal.
  rewrite py_prefix_nonneg by apply len_nonneg.
  cbn [arts basic_frame_files].
  rewrite <- (Z2Nat.id nf) at 1 by exact Hn.
  rewrite basic_frames_concat by exact Hb. rewrite Z2Nat.id by exact Hn.
  rewrite (take_all (nf * bytes_per_frame b)) by lia.
  rewrite take_app_ge by lia. rewrite Z.sub_diag.
  change (take 0 _) with (@nil Z). apply app_nil_r.
Qed.

Lemma basic_round_trip_witness :
  0 < basic_width {| basic_width := 2; basic_height := 1 |} /\
  0 < basic_height {| basic_width := 2; basic_height := 1 |} /\
  no_line_break (basename (lit "in/a.bin")) /\
  not_blank (basename (lit "in/a.bin")) /\
  len example_data < 10 ^ int_max_str_digits /\
  exists arts,
    file_to_frames {| basic_width := 2; basic_height := 1 |}
      (lit "in/a.bin") example_data
    = Ok arts /\
    frames_to_file (written_dir arts) = Ok example_data.
Proof.
  assert (Hsz : len example_data < 10 ^ int_max_str_digits)
    by (vm_compute; reflexivity).
  assert (Hbr : no_line_break (basename (lit "in/a.bin")))
    by (apply nonspace_no_line_break; repeat constructor).
  assert (Hbl : not_blank (basename (lit "in/a.bin")))
    by (exists "a"%char; split; [left; reflexivity | reflexivity]).
  split; [reflexivity|]. split; [reflexivity|].
  split; [exact Hbr|]. split; [exact Hbl|]. split; [exact Hsz|].
  exact (basic_round_trip {| basic_width := 2; basic_height := 1 |}
           (lit "in/a.bin") example_data eq_refl eq_refl Hbr Hbl Hsz).
Defined.

(** X14.  A file whose name is blank is encoded without complaint, and
    the directory written cannot be decoded: [strip] takes the space
    after the colon of the [original_filename] line away, the line no
    longer splits at [': '], and [frames_to_file] raises [ValueError]. *)
Theorem blank_file_name_not_decodable (b : BasicConverter)
  (input_file : pystr) (data : list Z) :
  0 < basic_width b -> 0 < basic_height b ->
  basename input_file <> [] ->
  Forall (fun c => is_space c = true) (basename input_file) ->
  exists arts,
    file_to_frames b input_file data = Ok arts /\
    frames_to_file (written_dir arts) = Raise ValueError.
Proof.
  intros Hw Hh _ Hblank. assert (Hb : 0 < bytes_per_frame b)
    by (unfold bytes_per_frame; nia).
  unfold file_to_frames. cbv zeta.
  destruct (Z.eqb_spec (bytes_per_frame b) 0) as [Hz|_]; [lia|].
  eexists. split; [reflexivity|].
  unfold frames_to_file, read_metadata, written_dir.
  cbn [metadata_txt_file basic_metadata bind].
  unfold metadata_txt, metadata_line at 1.
  cbn [basic_original_filename]. unfold file_lines.
  rewrite <- !app_assoc.
  rewrite (file_lines_from_prefix [] (lit "original_filename"))
    by (apply nonspace_no_line_break; repeat constructor).
  rewrite (file_lines_from_prefix _ (lit ": "))
    by (split; cbn; intros [H|[H|[]]]; discriminate).
  match goal with
  | |- context [file_lines_from ?cur (basename input_file ++ [LF] ++ ?rest)] =>
      destruct (file_lines_from_blank cur (basename input_file) rest Hblank)
        as (pre & lines & He & Hpre);
      change ([LF] ++ rest) with (LF :: rest); rewrite He
  end.
  cbn [read_metadata_lines]. rewrite <- app_assoc.
  rewrite strip_blank_line by (reflexivity || exact Hpre).
  reflexivity.
Qed.

Lemma blank_file_name_not_decodable_witness :
  basename (lit "in/ ") <> [] /\
  Forall (fun c => is_space c = true) (basename (lit "in/ ")) /\
  exists arts,
    file_to_frames {| basic_width := 2; basic_height := 1 |}
      (lit "in/ ") example_data
    = Ok arts /\
    frames_to_file (written_dir arts) = Raise ValueError.
Proof.
  assert (Hne : basename (lit "in/ ") <> []) by discriminate.
  assert (Hsp : Forall (fun c => is_space c = true) (basename (lit "in/ ")))
    by (repeat constructor).
  split; [exact Hne|]. split; [exact Hsp|].
  exact (blank_file_name_not_decodable
           {| basic_width := 2; basic_height := 1 |}
           (lit "in/ ") example_data eq_refl eq_refl Hne Hsp).
Defined.

(** ** The run-length stream in front of other bytes *)

Lemma decode_apply_rle_loop_app (fuel : nat) (data rest : list Z) :
  (length data <= fuel)%nat ->
  Forall (fun r => fst r = 255 -> (3 < snd r)%nat) (rle_runs_loop fuel data) ->
  _decode_rle (apply_rle_loop fuel data ++ rest) = data ++ _decode_rle rest.
Proof.
  revert data. induction fuel as [|fuel IH]; intros data Hlen Hruns.
  - destruct data; [reflexivity | simpl in Hlen; lia].
  - destruct data as [|x rst]; [reflexivity|].
    simpl in Hruns. cbv zeta in Hruns. inversion Hruns as [|r rs H1 H2]; subst.
    simpl in H1. simpl apply_rle_loop. cbv zeta.
    specialize (IH _ (skip_run_length x rst fuel Hlen) H2).
    pose proof (first_run_split x rst) as Hsp. cbv zeta in Hsp.
    rewrite <- app_assoc.
    replace ((x :: rst) ++ _decode_rle rest)
      with (repeat x (run_count x rst 1)
            ++ skipn (run_count x rst 1) (x :: rst) ++ _decode_rle rest)
      by (rewrite app_assoc, <- Hsp; reflexivity).
    rewrite <- IH.
    destruct (Nat.ltb_spec 3 (run_count x rst 1)) as [Hc|Hc].
    + cbn [app]. rewrite decode_rle_escape, Nat2Z.id. reflexivity.
    + assert (Hx : x <> 255) by (intros E; specialize (H1 E); lia).
      apply decode_rle_literals. exact Hx.
Qed.

Lemma decode_rle_zeros (k : Z) : _decode_rle (zeros k) = zeros k.
Proof.
  unfold zeros. induction (Z.to_nat k) as [|n IH]; [reflexivity|].
  cbn [repeat]. rewrite decode_rle_literal by discriminate.
  rewrite IH. reflexivity.
Qed.

(** X7.  The stream written for [D] is decoded in front of any following
    bytes without taking any of them into an escape: decoding
    [_apply_rle D ++ rest] gives [D] and then the decoding of [rest]; in
    front of the zero padding of a frame it gives [D] and the padding. *)
Theorem rle_stream_self_delimiting (D rest : list Z) (k : Z) :
  no_literal_255 D ->
  _decode_rle (_apply_rle D ++ rest) = D ++ _decode_rle rest /\
  _decode_rle (_apply_rle D ++ zeros k) = D ++ zeros k.
Proof.
  intros HD. split.
  - apply decode_apply_rle_loop_app; [apply Nat.le_refl | exact HD].
  - unfold _apply_rle.
    rewrite decode_apply_rle_loop_app by (try apply Nat.le_refl; exact HD).
    rewrite decode_rle_zeros. reflexivity.
Qed.

Lemma rle_stream_self_delimiting_witness :
  no_literal_255 [0; 0; 0; 0; 0; 3; 7] /\
  _decode_rle (_apply_rle [0; 0; 0; 0; 0; 3; 7] ++ zeros 2)
  = [0; 0; 0; 0; 0; 3; 7] ++ zeros 2.
Proof.
  assert (H : no_literal_255 [0; 0; 0; 0; 0; 3; 7]).
  { unfold no_literal_255. simpl.
    repeat constructor; simpl; intros; try lia; discriminate. }
  split; [exact H|].
  exact (proj2 (rle_stream_self_delimiting [0; 0; 0; 0; 0; 3; 7] [] 2 H)).
Defined.

(** ** Which sequences the differential decoder restores *)

Lemma clip_byte_cases (v : Z) :
  (v <= 0 -> clip_byte v = 0) /\
  (0 <= v <= 255 -> clip_byte v = v) /\
  (255 <= v -> clip_byte v = 255).
Proof.
  unfold clip_byte, np_clip. repeat split; intros H.
  - rewrite Z.max_r, Z.min_l by lia. reflexivity.
  - rewrite Z.max_l, Z.min_l by lia. apply Z.mod_small. lia.
  - rewrite Z.max_l, Z.min_r by lia. reflexivity.
Qed.

Lemma to_int32_small (z : Z) :
  - 2147483648 <= z < 2147483648 -> to_int32 z = z.
Proof. intros H. unfold to_int32. rewrite Z.mod_small by lia. lia. Qed.

Lemma byte_diff_cases (p y : Z) :
  0 <= p < 256 -> 0 <= y < 256 ->
  (p <= y -> (y - p) mod 256 = y - p) /\
  (y < p -> (y - p) mod 256 = y - p + 256).
Proof.
  intros Hp Hy. split; intros H.
  - apply Z.mod_small. lia.
  - symmetry. apply (Z.mod_unique_pos _ _ (-1)); lia.
Qed.

(** The running sums restore a tail that does not decrease from the
    value [p] they stand at. *)
Lemma cumsum_restores (p : Z) (r : list Z) :
  0 <= p < 256 -> all_bytes r -> nondecreasing (p :: r) ->
  map clip_byte (cumsum_from p (diff_from p r)) = r.
Proof.
  revert p. induction r as [|y r IH]; intros p Hp Hb Hs; [reflexivity|].
  inversion Hb as [|? ? Hy Hb']; subst.
  cbn [nondecreasing] in Hs. destruct Hs as (Hpy & Hs).
  cbn [diff_from cumsum_from map]. cbv zeta.
  rewrite (proj1 (byte_diff_cases p y Hp Hy) Hpy).
  replace (p + (y - p)) with y by lia.
  rewrite to_int32_small by lia.
  rewrite (proj1 (proj2 (clip_byte_cases y))) by lia.
  f_equal. apply IH; assumption.
Qed.

(** They restore nothing else. *)
Lemma cumsum_restores_only (p : Z) (r : list Z) :
  0 <= p < 256 -> all_bytes r ->
  map clip_byte (cumsum_from p (diff_from p r)) = r ->
  nondecreasing (p :: r).
Proof.
  revert p. induction r as [|y r IH]; intros p Hp Hb Heq;
    [cbn; auto|].
  inversion Hb as [|? ? Hy Hb']; subst.
  cbn [diff_from cumsum_from map] in Heq. cbv zeta in Heq.
  injection Heq as Hhd Htl.
  destruct (Z.le_gt_cases p y) as [Hpy|Hpy].
  - rewrite (proj1 (byte_diff_cases p y Hp Hy) Hpy) in Htl.
    replace (p + (y - p)) with y in Htl by lia.
    rewrite to_int32_small in Htl by lia.
    cbn [nondecreasing]. split; [exact Hpy|].
    apply IH; assumption.
  - exfalso. rewrite (proj2 (byte_diff_cases p y Hp Hy)) in Hhd by lia.
    rewrite to_int32_small in Hhd by lia.
    rewrite (proj2 (proj2 (clip_byte_cases _))) in Hhd by lia. lia.
Qed.

Lemma differential_decode_cons2 (base x y : Z) (r : list Z) :
  differential_decode base (differential (x :: y :: r))
  = clip_byte base :: map clip_byte (cumsum_from 0 (diff_from x (y :: r))).
Proof.
  rewrite differential_cons2. unfold differential_decode.
  replace (0 <? len (0 :: diff_from x (y :: r))) with true
    by (symmetry; apply Z.ltb_lt; unfold len; simpl length; lia).
  reflexivity.
Qed.

(** X8.  The differential decoder gives back a byte sequence exactly when it
    has at most one byte, or starts with 0 and never decreases. *)
Theorem differential_round_trip_iff (D : list Z) :
  all_bytes D ->
  differential_decode (hd 0 D) (differential D) = D <->
  (length D <= 1)%nat \/ (hd 0 D = 0 /\ nondecreasing D).
Proof.
  intros Hb. destruct D as [|x [|y r]].
  - split; [intros _; left; simpl; lia | reflexivity].
  - inversion Hb as [|? ? Hx _]; subst. split; [intros _; left; simpl; lia|].
    intros _. cbn [hd]. rewrite differential_single.
    unfold differential_decode. change (0 <? len [x]) with true.
    cbv iota zeta. unfold np_cumsum_int32. cbn [cumsum_from tl map].
    fold (clip_byte x).
    rewrite (proj1 (proj2 (clip_byte_cases x))) by lia. reflexivity.
  - inversion Hb as [|? ? Hx Hb']; subst.
    inversion Hb' as [|? ? Hy Hb'']; subst.
    cbn [hd]. rewrite differential_decode_cons2.
    rewrite (proj1 (proj2 (clip_byte_cases x))) by lia.
    split.
    + intros Heq. right. pose proof (f_equal (@tl Z) Heq) as Htl.
      cbn [tl] in Htl.
      assert (Hx0 : x = 0).
      { cbn [diff_from cumsum_from map] in Htl. cbv zeta in Htl.
        pose proof (f_equal (hd 0) Htl) as Hhd. cbn [hd] in Hhd.
        destruct (Z.le_gt_cases x y) as [Hxy|Hxy].
        - rewrite (proj1 (byte_diff_cases x y Hx Hy) Hxy) in Hhd.
          rewrite to_int32_small in Hhd by lia.
          rewrite (proj1 (proj2 (clip_byte_cases _))) in Hhd by lia. lia.
        - rewrite (proj2 (byte_diff_cases x y Hx Hy) Hxy) in Hhd.
          rewrite to_int32_small in Hhd by lia.
          rewrite (proj1 (proj2 (clip_byte_cases _))) in Hhd by lia. lia. }
      split; [exact Hx0|]. subst x.
      apply cumsum_restores_only; [lia | exact Hb' | exact Htl].
    + intros [Hlen|[Hx0 Hs]]; [simpl in Hlen; lia|]. subst x.
      f_equal. apply cumsum_restores; [lia | exact Hb' | exact Hs].
Qed.

Lemma differential_round_trip_iff_witness :
  all_bytes [0; 3; 3; 200] /\
  differential_decode 0 (differential [0; 3; 3; 200]) = [0; 3; 3; 200].
Proof.
  assert (H : all_bytes [0; 3; 3; 200]) by (repeat constructor; lia).
  split; [exact H|].
  apply (proj2 (differential_round_trip_iff [0; 3; 3; 200] H)).
  right. cbn. repeat split; lia.
Defined.

(** ** Reading the matrix from the audio *)

Lemma frombuffer_odd (n : nat) (b : list Z) :
  length b = S (2 * n) -> np_frombuffer_int16 b = Raise ValueError.
Proof.
  revert b. induction n as [|n IH]; intros b H.
  - destruct b as [|lo [|hi r]]; simpl in H; try lia. reflexivity.
  - destruct b as [|lo [|hi r]]; simpl in H; try lia.
    simpl. rewrite IH by lia. reflexivity.
Qed.

(** X9.  [audio_to_matrix] raises [ValueError] when the buffer is not a whole
    number of samples or holds fewer than [matrix_size * matrix_size] of
    them, and only then. *)
Theorem audio_to_matrix_cases (audio_bytes : list Z) (ms : Z) :
  0 <= ms ->
  (Nat.Even (length audio_bytes) /\ 2 * (ms * ms) <= len audio_bytes ->
   exists m, audio_to_matrix audio_bytes ms = Ok m /\ len m = ms * ms) /\
  (Nat.Odd (length audio_bytes) \/ len audio_bytes < 2 * (ms * ms) ->
   audio_to_matrix audio_bytes ms = Raise ValueError).
Proof.
  intros Hms. assert (Hsq : 0 <= ms * ms) by nia.
  unfold audio_to_matrix. split.
  - intros [[n Hn] Hlen].
    destruct (frombuffer_even n audio_bytes ltac:(lia)) as (smp & Hs & Hl).
    rewrite Hs. cbn [bind]. cbv zeta. rewrite len_take.
    replace (Z.min (Z.max 0 (ms * ms)) (len smp)) with (ms * ms)
      by (unfold len in *; lia).
    rewrite Z.eqb_refl. eexists. split; [reflexivity|].
    rewrite len_take. unfold len in *. lia.
  - intros [[n Hn]|Hshort].
    + rewrite (frombuffer_odd n) by lia. reflexivity.
    + destruct (Nat.Even_or_Odd (length audio_bytes)) as [[n Hn]|[n Hn]].
      * destruct (frombuffer_even n audio_bytes ltac:(lia)) as (smp & Hs & Hl).
        rewrite Hs. cbn [bind]. cbv zeta. rewrite len_take.
        destruct (Z.eqb_spec (Z.min (Z.max 0 (ms * ms)) (len smp)) (ms * ms))
          as [E|E]; [unfold len in *; lia | reflexivity].
      * rewrite (frombuffer_odd n) by lia. reflexivity.
Qed.

Lemma audio_to_matrix_cases_witness :
  0 <= 2 /\
  exists m, audio_to_matrix [1; 0; 2; 0; 3; 0; 4; 0; 5; 0] 2 = Ok m /\
            len m = 2 * 2.
Proof.
  split; [lia|].
  apply (proj1 (audio_to_matrix_cases [1; 0; 2; 0; 3; 0; 4; 0; 5; 0] 2
                  ltac:(lia))).
  split; [exists 5%nat; reflexivity | vm_compute; discriminate].
Defined.

(** ** What the encode pass records *)

Lemma len_concat {A : Type} (ls : list (list A)) :
  len (concat ls) = fold_right Z.add 0 (map len ls).
Proof.
  induction ls as [|l ls IH]; [reflexivity|].
  cbn [concat map fold_right]. rewrite len_app, IH. reflexivity.
Qed.

(** Sizes of the slices of a frame that the loop reaches. *)
Lemma frame_sizes (c : Converter) (data : list Z) (k : Z) :
  valid_geometry c ->
  0 <= k < encode_num_frames c data ->
  0 < video_data_size c data k <= bytes_per_frame_video c /\
  0 <= len (audio_data c data k) <= bytes_per_frame_audio c /\
  (0 < len (audio_data c data k) ->
   video_data_size c data k = bytes_per_frame_video c).
Proof.
  intros Hvalid Hk.
  pose proof (capacities_positive c Hvalid) as (Hv & _ & Ha & Ht).
  pose proof (ceil_div_spec (len data) (bytes_per_frame_total c) Ht) as Hc.
  fold (encode_num_frames c data) in Hc.
  pose proof (frame_total_data_length c Hvalid data k ltac:(lia)) as Hl.
  pose proof (audio_data_length c Hvalid data k) as Hal.
  assert (Hpos : 0 < len data - k * bytes_per_frame_total c) by nia.
  unfold video_data_size in *. unfold bytes_per_frame_total in *. lia.
Qed.

(** X6.  The metadata of an encode pass: as many entries and frame images as
    [num_frames], at least one; entry [k] has index [k], at least one
    video byte, overflow bytes only when the video capacity is used up,
    and the length of the video slice as [original_length]; the byte
    counts of all entries add up to [original_size]. *)
Theorem encoded_metadata_invariants (matrix_audio : list Z) (c : Converter)
  (data : list Z) (fps_arg : Z) (dir : Artifacts) :
  valid_geometry c ->
  file_to_frames_with_audio matrix_audio c data fps_arg = Ok dir ->
  let md := metadata_json dir in
  original_size md = len data /\
  0 < num_frames md /\
  len (frames md) = num_frames md /\
  len (frame_files dir) = num_frames md /\
  (forall (k : nat) (fm : FrameMeta),
      nth_error (frames md) k = Some fm ->
      frame_idx fm = Z.of_nat k /\
      0 < video_bytes fm <= bytes_per_frame_video c /\
      0 <= audio_bytes fm <= bytes_per_frame_audio c /\
      (0 < audio_bytes fm -> video_bytes fm = bytes_per_frame_video c) /\
      original_length (compression fm) = video_bytes fm /\
      matrix_size (compression fm) = 16) /\
  fold_right Z.add 0
    (map (fun fm => video_bytes fm + audio_bytes fm) (frames md))
  = original_size md.
Proof.
  intros Hvalid Hdir. cbv zeta.
  destruct (file_to_frames_inv _ _ _ _ _ Hdir)
    as (auds & HF & Hne & Hf & _ & Hm).
  rewrite Hm, Hf. cbn [original_size num_frames frames].
  assert (Hn : 0 < encode_num_frames c data).
  { destruct auds as [|a auds]; [contradiction|].
    inversion HF as [|? ? ? ? _ _ Hr]; subst.
    assert (Hl : length (range (encode_num_frames c data)) <> 0%nat)
      by (rewrite <- Hr; discriminate).
    rewrite range_length in Hl. lia. }
  split; [reflexivity|]. split; [exact Hn|].
  split; [unfold len; rewrite length_map, range_length; lia|].
  split; [unfold len; rewrite length_map, range_length; lia|].
  split.
  - intros k fm Hfm.
    assert (Hk : (k < Z.to_nat (encode_num_frames c data))%nat).
    { rewrite <- range_length, <- (length_map (frame_meta c data)).
      apply nth_error_Some. rewrite Hfm. discriminate. }
    rewrite nth_error_map, nth_error_range in Hfm by exact Hk.
    cbn [option_map] in Hfm. inversion Hfm; subst fm. clear Hfm.
    destruct (frame_sizes c data (Z.of_nat k) Hvalid ltac:(lia))
      as (H1 & H2 & H3).
    unfold frame_meta. cbn [frame_idx video_bytes audio_bytes compression
      create_compression_matrix snd original_length matrix_size].
    rewrite (video_data_length c Hvalid).
    repeat split; lia.
  - rewrite map_map. cbn [frame_meta video_bytes audio_bytes].
    rewrite <- (frame_slices_tile_file c data Hvalid) at 2.
    rewrite len_concat, map_map. f_equal. apply map_ext. intros k.
    rewrite len_app, (video_data_length c Hvalid). reflexivity.
Qed.

Lemma encoded_metadata_invariants_witness :
  valid_geometry example_converter /\
  file_to_frames_with_audio example_matrix_audio example_converter
    example_data 30 = Ok example_dir /\
  fold_right Z.add 0
    (map (fun fm => video_bytes fm + audio_bytes fm)
       (frames (metadata_json example_dir)))
  = original_size (metadata_json example_dir).
Proof.
  split; [repeat split|]. split; [vm_compute; reflexivity|].
  exact (proj2 (proj2 (proj2 (proj2 (proj2
    (encoded_metadata_invariants example_matrix_audio example_converter
       example_data 30 example_dir example_converter_valid
       example_dir_encoded)))))).
Defined.

(** ** When the decode pass gets through *)

Section DecodeOutcome.

Variable matrix_audio : list Z.
Variable c : Converter.
Variable data : list Z.
Variable fps_arg : Z.
Variable dir : Artifacts.

Hypothesis Hvalid : valid_geometry c.
Hypothesis Hdir :
  file_to_frames_with_audio matrix_audio c data fps_arg = Ok dir.

Lemma decode_frame_outcome (st : DecState) (k : Z) :
  0 <= k < encode_num_frames c data ->
  audio_offset st = k * samples_per_frame c ->
  (matrix_in_audio c data k ->
   exists all',
     decode_frame c dir st k
     = Ok {| all_data := all';
             audio_offset := (k + 1) * samples_per_frame c |}) /\
  (~ matrix_in_audio c data k -> decode_frame c dir st k = Raise ValueError).
Proof.
  intros Hk Hoff.
  destruct (file_to_frames_inv _ _ _ _ _ Hdir) as (auds & _ & _ & Hf & _ & Hm).
  pose proof (capacities_positive c Hvalid) as (_ & Hs & _ & _).
  pose proof (encoded_audio_length _ _ _ _ _ Hvalid Hdir) as Hal.
  assert (Hfm : lookup IndexError (frames (metadata_json dir)) k
                = Ok (frame_meta c data k))
    by (rewrite Hm; cbn [frames]; apply lookup_map_range; exact Hk).
  assert (Hpx : lookup FileNotFoundError (frame_files dir) k
                = Ok (frame_pixels c data k))
    by (rewrite Hf; apply lookup_map_range; exact Hk).
  unfold matrix_in_audio. split; intros Hin.
  - rewrite (decode_frame_ok c dir st k _ _ Hfm Hpx).
    + eexists. f_equal. f_equal. rewrite Hoff. lia.
    + simpl. lia.
    + rewrite Hoff. nia.
    + rewrite Hal, Hoff.
      change (matrix_size (compression (frame_meta c data k))) with 16. lia.
  - unfold decode_frame. rewrite Hfm. cbn [bind]. rewrite Hpx. cbn [bind].
    cbv zeta.
    change (matrix_size (compression (frame_meta c data k))) with 16.
    rewrite (proj2 (audio_to_matrix_cases _ 16 ltac:(lia))); [reflexivity|].
    right. unfold len at 1. rewrite int16_tobytes_length.
    pose proof (len_slice (audio_offset st) (audio_offset st + 16 * 16)
                  (audio_raw dir)) as Hsl.
    unfold len at 1 in Hsl. rewrite Hal in Hsl. rewrite Hoff in *.
    assert (0 <= k * samples_per_frame c) by nia. lia.
Qed.

Lemma matrix_in_audio_mono (k k' : Z) :
  k <= k' -> matrix_in_audio c data k' -> matrix_in_audio c data k.
Proof.
  pose proof (capacities_positive c Hvalid) as (_ & Hs & _ & _).
  unfold matrix_in_audio. intros Hk Hin. nia.
Qed.

(** The loop over the first [j] frames either gets through with the
    cursor at [j * samples_per_frame], or it has raised [ValueError] at a
    frame whose matrix samples are not all there. *)
Lemma decode_loop_outcome (j : nat) :
  Z.of_nat j <= encode_num_frames c data ->
  (exists st,
      decode_loop c dir (range (Z.of_nat j)) dec_init = Ok st /\
      audio_offset st = Z.of_nat j * samples_per_frame c /\
      (0 < Z.of_nat j -> matrix_in_audio c data (Z.of_nat j - 1))) \/
  (decode_loop c dir (range (Z.of_nat j)) dec_init = Raise ValueError /\
   0 < Z.of_nat j /\ ~ matrix_in_audio c data (Z.of_nat j - 1)).
Proof.
  induction j as [|j IH]; intros Hj.
  - left. exists dec_init. repeat split. lia.
  - replace (Z.of_nat (S j)) with (Z.of_nat j + 1) in * by lia.
    rewrite range_succ, decode_loop_app by lia.
    replace (Z.of_nat j + 1 - 1) with (Z.of_nat j) by lia.
    destruct (IH ltac:(lia)) as [(st & Hst & Hoff & _)|(Hr & Hpos & Hno)].
    + rewrite Hst. cbn [bind decode_loop].
      destruct (decode_frame_outcome st (Z.of_nat j) ltac:(lia) Hoff)
        as (Hyes & Hnot).
      destruct (Z.le_gt_cases
                  (Z.of_nat j * samples_per_frame c + 256)
                  (encode_num_frames c data
                   * (samples_per_frame c * audio_channels c))) as [Hin|Hout].
      * destruct (Hyes Hin) as (all' & ->). cbn [bind]. left.
        eexists. split; [reflexivity|]. cbn [audio_offset].
        split; [reflexivity|]. intros _. exact Hin.
      * assert (Hn : ~ matrix_in_audio c data (Z.of_nat j))
          by (unfold matrix_in_audio; lia).
        rewrite (Hnot Hn). cbn [bind]. right.
        split; [reflexivity|]. split; [lia | exact Hn].
    + rewrite Hr. cbn [bind]. right. split; [reflexivity|].
      split; [lia|]. intros Hin. apply Hno.
      apply (matrix_in_audio_mono _ (Z.of_nat j)); [lia | exact Hin].
Qed.

End DecodeOutcome.

(** X10.  Encoding a non-empty file and decoding what was written: the decode
    pass gets through exactly when the 256 matrix samples of the last
    frame lie within [audio.raw] at the (per-channel) cursor position;
    then it writes at most [original_size] bytes and its size check
    passes exactly when it wrote that many.  Otherwise it raises
    [ValueError]. *)
Theorem round_trip_outcome (matrix_audio : list Z) (c : Converter)
  (data : list Z) (fps_arg : Z) :
  valid_geometry c ->
  0 < len data ->
  let n := encode_num_frames c data in
  let fits :=
    (n - 1) * samples_per_frame c + 256
    <= n * (samples_per_frame c * audio_channels c) in
  (fits ->
   exists out flag,
     round_trip matrix_audio c data fps_arg = Ok (out, flag) /\
     len out <= len data /\
     (flag = true <-> len out = len data)) /\
  (~ fits -> round_trip matrix_audio c data fps_arg = Raise ValueError).
Proof.
  intros Hvalid Hdata. cbv zeta.
  destruct (file_to_frames_ok matrix_audio c data Hvalid fps_arg Hdata)
    as (dir & Hdir).
  destruct (file_to_frames_inv _ _ _ _ _ Hdir) as (auds & _ & _ & _ & _ & Hm).
  pose proof (encode_num_frames_least c data data Hvalid) as (Hn & _).
  cbv zeta in Hn.
  assert (Hn1 : 0 < encode_num_frames c data).
  { pose proof (capacities_positive c Hvalid) as (_ & _ & _ & Ht).
    pose proof (ceil_div_pos (len data) (bytes_per_frame_total c) Hdata Ht).
    unfold encode_num_frames. lia. }
  unfold round_trip. rewrite Hdir. cbn [bind].
  unfold frames_with_audio_to_file. cbv zeta.
  rewrite Hm. cbn [num_frames original_size].
  destruct (decode_loop_outcome matrix_audio c data fps_arg dir Hvalid Hdir
              (Z.to_nat (encode_num_frames c data)) ltac:(lia))
    as [(st & Hst & _ & Hin)|(Hr & _ & Hno)];
    rewrite Z2Nat.id in * by lia; unfold matrix_in_audio in *.
  - split; [|intros Hnot; specialize (Hin Hn1); lia].
    intros _. rewrite Hst. cbn [bind]. eexists. eexists.
    split; [reflexivity|]. rewrite len_take. split; [lia|].
    apply Z.eqb_eq.
  - split; [intros Hfit; lia|]. intros _. rewrite Hr. reflexivity.
Qed.

Lemma round_trip_outcome_witness :
  valid_geometry example_converter /\
  0 < len example_data /\
  exists out flag,
    round_trip example_matrix_audio example_converter example_data 30
    = Ok (out, flag) /\
    len out <= len example_data.
Proof.
  split; [repeat split|]. split; [reflexivity|].
  destruct (proj1 (round_trip_outcome example_matrix_audio example_converter
                     example_data 30 example_converter_valid eq_refl))
    as (out & flag & H1 & H2 & _); [vm_compute; discriminate|].
  exists out, flag. split; [exact H1 | exact H2].
Defined.

(** ** Bytes and samples *)

Lemma int16_bytes (lo hi : Z) :
  0 <= lo < 256 -> 0 <= hi < 256 ->
  to_int16 (lo + 256 * hi) mod 256 = lo /\
  (to_int16 (lo + 256 * hi) / 256) mod 256 = hi.
Proof.
  intros Hlo Hhi. unfold to_int16.
  Z.div_mod_to_equations. lia.
Qed.

Lemma frombuffer_cons2 (lo hi : Z) (r : list Z) :
  np_frombuffer_int16 (lo :: hi :: r)
  = (rest <- np_frombuffer_int16 r ;; Ok (to_int16 (lo + 256 * hi) :: rest)).
Proof. reflexivity. Qed.

Lemma tobytes_cons (x : Z) (s : list Z) :
  int16_tobytes (x :: s) = x mod 256 :: (x / 256) mod 256 :: int16_tobytes s.
Proof. reflexivity. Qed.

(** Bytes read as samples and written back are the same bytes. *)
Lemma tobytes_frombuffer (b s : list Z) :
  all_bytes b -> np_frombuffer_int16 b = Ok s -> int16_tobytes s = b.
Proof.
  assert (H : forall (n : nat) (b s : list Z),
             (length b <= n)%nat -> all_bytes b ->
             np_frombuffer_int16 b = Ok s -> int16_tobytes s = b).
  { clear b s. induction n as [|n IH]; intros b s Hn Hb H.
    - destruct b; [|simpl in Hn; lia]. inversion H. reflexivity.
    - destruct b as [|lo [|hi r]].
      + inversion H. reflexivity.
      + discriminate.
      + rewrite frombuffer_cons2 in H.
        destruct (np_frombuffer_int16 r) as [rest|e] eqn:Hr;
          cbn [bind] in H; [|discriminate].
        assert (Hs : s = to_int16 (lo + 256 * hi) :: rest) by congruence.
        subst s. clear H.
        inversion Hb as [|? ? Hlo Hb1]; subst.
        inversion Hb1 as [|? ? Hhi Hb2]; subst.
        rewrite tobytes_cons.
        destruct (int16_bytes lo hi Hlo Hhi) as (-> & ->).
        f_equal. f_equal.
        apply (IH r rest); [simpl in Hn; lia | exact Hb2 | exact Hr]. }
  apply (H (length b)). lia.
Qed.

Lemma frombuffer_app (n : nat) (b1 b2 s : list Z) :
  length b1 = (2 * n)%nat ->
  np_frombuffer_int16 (b1 ++ b2) = Ok s ->
  exists s1 s2,
    np_frombuffer_int16 b1 = Ok s1 /\
    np_frombuffer_int16 b2 = Ok s2 /\
    s = s1 ++ s2 /\ length s1 = n.
Proof.
  revert b1 s. induction n as [|n IH]; intros b1 s Hl H.
  - destruct b1; [|simpl in Hl; lia]. exists [], s. repeat split. exact H.
  - destruct b1 as [|lo [|hi r]]; simpl in Hl; try lia.
    cbn [app] in H. rewrite frombuffer_cons2 in H.
    destruct (np_frombuffer_int16 (r ++ b2)) as [rest|e] eqn:Hr;
      cbn [bind] in H; [|discriminate].
    assert (Hs : s = to_int16 (lo + 256 * hi) :: rest) by congruence.
    subst s. clear H.
    destruct (IH r rest ltac:(lia) Hr) as (s1 & s2 & H1 & H2 & -> & Hl1).
    exists (to_int16 (lo + 256 * hi) :: s1), s2.
    rewrite frombuffer_cons2, H1. cbn [bind].
    repeat split; [exact H2 | simpl; lia].
Qed.

Lemma tobytes_firstn (k : nat) (s : list Z) :
  int16_tobytes (firstn k s) = firstn (2 * k) (int16_tobytes s).
Proof.
  revert s. induction k as [|k IH]; intros s; [reflexivity|].
  destruct s as [|x s]; [reflexivity|].
  replace (2 * S k)%nat with (S (S (2 * k))) by lia.
  cbn [firstn]. rewrite !tobytes_cons. cbn [firstn]. rewrite IH.
  reflexivity.
Qed.

Lemma take_app_within {A : Type} (n : Z) (l1 l2 : list A) :
  n <= len l1 -> take n (l1 ++ l2) = take n l1.
Proof.
  unfold len, take. intros H. rewrite firstn_app.
  replace (Z.to_nat n - length l1)%nat with 0%nat by lia.
  simpl. apply app_nil_r.
Qed.

Lemma take_take {A : Type} (i j : Z) (l : list A) :
  take i (take j l) = take (Z.min i j) l.
Proof.
  unfold take. rewrite firstn_firstn. f_equal. lia.
Qed.

Lemma all_bytes_app (l1 l2 : list Z) :
  all_bytes l1 -> all_bytes l2 -> all_bytes (l1 ++ l2).
Proof. intros H1 H2. apply Forall_app. split; assumption. Qed.

Lemma all_bytes_zeros (n : Z) : all_bytes (zeros n).
Proof.
  unfold all_bytes, zeros. apply Forall_forall. intros x Hx.
  apply repeat_spec in Hx. lia.
Qed.

Lemma all_bytes_take (n : Z) (l : list Z) : all_bytes l -> all_bytes (take n l).
Proof.
  unfold all_bytes, take. intros H. rewrite Forall_forall in *.
  intros x Hx. apply H. apply (In_nth _ _ 0) in Hx.
  destruct Hx as (i & Hi & <-). rewrite length_firstn in Hi.
  rewrite <- (firstn_skipn (Z.to_nat n) l) at 2.
  rewrite <- (app_nth1 _ (skipn (Z.to_nat n) l) 0)
    by (rewrite length_firstn; lia).
  apply nth_In. rewrite firstn_skipn. lia.
Qed.

Lemma all_bytes_drop (n : Z) (l : list Z) : all_bytes l -> all_bytes (drop n l).
Proof.
  unfold all_bytes, drop. intros H. rewrite Forall_forall in *.
  intros x Hx. apply H. rewrite <- (firstn_skipn (Z.to_nat n) l).
  apply in_or_app. right. exact Hx.
Qed.

(** ** A file that fits one frame, overflow included *)

Lemma drop_app_exact {A : Type} (n : Z) (l1 l2 : list A) :
  len l1 = n -> drop n (l1 ++ l2) = l2.
Proof.
  unfold len, drop. intros H. rewrite skipn_app.
  rewrite skipn_all2 by lia.
  replace (Z.to_nat n - length l1)%nat with 0%nat by lia. reflexivity.
Qed.

Lemma single_frame (c : Converter) (data : list Z) :
  valid_geometry c ->
  0 < len data <= bytes_per_frame_total c ->
  encode_num_frames c data = 1 /\
  frame_total_data c data 0 = data.
Proof.
  intros Hvalid Hlen.
  pose proof (capacities_positive c Hvalid) as (_ & _ & _ & Ht).
  pose proof (ceil_div_spec (len data) (bytes_per_frame_total c) Ht) as Hc.
  split; [unfold encode_num_frames; nia|].
  unfold frame_total_data. cbv zeta. rewrite Z.mul_0_l, Z.add_0_l.
  rewrite Z.min_r by lia.
  unfold slice, drop. simpl skipn. apply take_all. lia.
Qed.

Lemma frame_slices_bytes (c : Converter) (data : list Z) (k : Z) :
  all_bytes data ->
  all_bytes (video_data c data k) /\ all_bytes (audio_data c data k).
Proof.
  intros Hb.
  assert (Hf : all_bytes (frame_total_data c data k))
    by (unfold frame_total_data, slice; cbv zeta;
        apply all_bytes_drop, all_bytes_take; exact Hb).
  split.
  - unfold video_data. apply all_bytes_take. exact Hf.
  - unfold audio_data.
    destruct (video_data_size c data k <? len (frame_total_data c data k));
      [apply all_bytes_drop; exact Hf | constructor].
Qed.

(** What the decoder reads back as the overflow bytes of the only frame
    of a file: the overflow bytes up to an even count, as far as they fit
    beside the matrix. *)
Lemma overflow_read_back (matrix_audio : list Z) (c : Converter)
  (data : list Z) (fps_arg : Z) (dir : Artifacts) :
  valid_geometry c ->
  len matrix_audio = 512 ->
  512 <= bytes_per_frame_audio c ->
  0 < len data <= bytes_per_frame_total c ->
  all_bytes data ->
  file_to_frames_with_audio matrix_audio c data fps_arg = Ok dir ->
  let overflow := audio_data c data 0 in
  take (len overflow)
    (int16_tobytes
       (slice 256 (256 + len overflow / 2) (audio_raw dir)))
  = take (Z.min (2 * (len overflow / 2)) (bytes_per_frame_audio c - 512))
      overflow.
Proof.
  intros Hvalid Hm Hbig Hlen Hb Hdir. cbv zeta.
  destruct (single_frame c data Hvalid Hlen) as (Hn & _).
  destruct (file_to_frames_inv _ _ _ _ _ Hdir) as (auds & HF & _ & _ & Ha & _).
  rewrite Hn in HF. change (range 1) with [0] in HF.
  inversion HF as [|? a0 ? auds' Hs0 HF']; subst. inversion HF'; subst.
  clear HF HF'. rewrite Ha. cbn [concat]. rewrite app_nil_r.
  set (ov := audio_data c data 0) in *.
  assert (Hov : all_bytes ov) by (apply frame_slices_bytes; exact Hb).
  pose proof (len_nonneg ov) as Hov0.
  unfold samples_of, frame_audio_buffer, full_audio in Hs0. cbv zeta in Hs0.
  fold ov in Hs0. rewrite take_app_ge in Hs0 by lia. rewrite Hm in Hs0.
  set (R := take (bytes_per_frame_audio c - 512)
              (ov ++ zeros (bytes_per_frame_audio c - 512 - len ov))) in *.
  destruct (frombuffer_app 256 matrix_audio R a0
              ltac:(unfold len in Hm; lia) Hs0)
    as (s1 & s2 & _ & Hs2 & -> & Hl1).
  assert (HR : int16_tobytes s2 = R).
  { apply tobytes_frombuffer; [|exact Hs2].
    apply all_bytes_take, all_bytes_app; [exact Hov | apply all_bytes_zeros]. }
  assert (Hh : 0 <= len ov / 2) by (apply Z.div_pos; lia).
  assert (Hh2 : 2 * (len ov / 2) <= len ov)
    by (pose proof (Z.mul_div_le (len ov) 2 ltac:(lia)); lia).
  assert (Hl1' : len s1 = 256) by (unfold len; lia).
  unfold slice. rewrite take_app_ge by lia.
  rewrite drop_app_exact by exact Hl1'.
  replace (256 + len ov / 2 - len s1) with (len ov / 2) by lia.
  unfold take at 2. rewrite tobytes_firstn, HR.
  replace (firstn (2 * Z.to_nat (len ov / 2)) R)
    with (take (2 * (len ov / 2)) R) by (unfold take; f_equal; lia).
  rewrite take_take, Z.min_r by lia.
  unfold R. rewrite take_take. apply take_app_within. lia.
Qed.

Lemma cumsum_from_app (acc : Z) (X Y : list Z) :
  exists T, cumsum_from acc (X ++ Y) = cumsum_from acc X ++ T.
Proof.
  revert acc. induction X as [|x X IH]; intros acc.
  - exists (cumsum_from acc Y). reflexivity.
  - cbn [app cumsum_from]. cbv zeta.
    destruct (IH (to_int32 (acc + x))) as (T & ->).
    exists T. reflexivity.
Qed.

Lemma cumsum_from_length (acc : Z) (X : list Z) :
  length (cumsum_from acc X) = length X.
Proof.
  revert acc. induction X as [|x X IH]; intros acc; [reflexivity|].
  cbn [cumsum_from length]. cbv zeta. rewrite IH. reflexivity.
Qed.

(** Bytes after the differential sequence do not change what the
    decoder makes of its first [len X] places. *)
Lemma differential_decode_app (base : Z) (X Y : list Z) :
  X <> [] ->
  take (len X) (differential_decode base (X ++ Y))
  = differential_decode base X.
Proof.
  intros HX. destruct X as [|x X]; [contradiction|].
  unfold differential_decode.
  replace (0 <? len ((x :: X) ++ Y)) with true
    by (symmetry; apply Z.ltb_lt; unfold len; simpl length; lia).
  replace (0 <? len (x :: X)) with true
    by (symmetry; apply Z.ltb_lt; unfold len; simpl length; lia).
  unfold np_cumsum_int32.
  destruct (cumsum_from_app 0 (x :: X) Y) as (T & ->).
  pose proof (cumsum_from_length 0 (x :: X)) as Hl.
  destruct (cumsum_from 0 (x :: X)) as [|c0 C] eqn:HC; [discriminate|].
  cbn [app tl]. rewrite app_comm_cons, map_app.
  rewrite take_app_within
    by (unfold len; rewrite length_map; simpl length in *; lia).
  apply take_all. unfold len. rewrite length_map. simpl length in *. lia.
Qed.

(** The whole pipeline on a file that fits one frame. *)
Lemma round_trip_single_frame (matrix_audio : list Z) (c : Converter)
  (data : list Z) (fps_arg : Z) :
  valid_geometry c ->
  len matrix_audio = 512 ->
  512 <= bytes_per_frame_audio c ->
  0 < len data <= bytes_per_frame_total c ->
  all_bytes data ->
  let video := video_data c data 0 in
  let overflow := audio_data c data 0 in
  let compressed := _apply_rle (differential video) in
  let video_out :=
    take (len video)
      (differential_decode (hd 0 video)
         (_decode_rle (compressed ++ zeros (len video - len compressed)))) in
  let overflow_out :=
    take (Z.min (2 * (len overflow / 2)) (bytes_per_frame_audio c - 512))
      overflow in
  let out := take (len data) (video_out ++ overflow_out) in
  round_trip matrix_audio c data fps_arg = Ok (out, len out =? len data).
Proof.
  intros Hvalid Hm Hbig Hlen Hb. cbv zeta.
  destruct (single_frame c data Hvalid Hlen) as (Hn & Hf).
  assert (Hroom : 256 <= samples_per_frame c * audio_channels c)
    by (unfold bytes_per_frame_audio in Hbig; lia).
  destruct (file_to_frames_ok matrix_audio c data Hvalid fps_arg
              ltac:(lia)) as (dir & Hdir).
  pose proof (overflow_read_back matrix_audio c data fps_arg dir Hvalid Hm
                Hbig Hlen Hb Hdir) as Hov. cbv zeta in Hov.
  unfold round_trip. rewrite Hdir. cbn [bind].
  unfold frames_with_audio_to_file. cbv zeta.
  destruct (file_to_frames_inv _ _ _ _ _ Hdir) as (auds & _ & _ & _ & _ & Hmd).
  rewrite Hmd. cbn [num_frames original_size]. rewrite Hn.
  change (range 1) with [0]. cbn [decode_loop].
  rewrite (decode_encoded_frame matrix_audio c data fps_arg dir Hvalid Hroom
             Hdir dec_init 0) by (try reflexivity; lia).
  cbn [bind all_data audio_offset dec_init app].
  rewrite (compressed_bytes_encoded c data 0 Hvalid).
  unfold frame_meta.
  cbn [compression audio_bytes original_length compressed_length
       differential_base create_compression_matrix snd].
  change (0 + 16 * 16) with 256. rewrite Hov.
  replace (match video_data c data 0 with [] => 0 | x :: _ => x end)
    with (hd 0 (video_data c data 0))
    by (destruct (video_data c data 0); reflexivity).
  reflexivity.
Qed.

(** X11.  A file that fits one frame comes back byte for byte, with the size
    check passed, when its video slice starts with 0 and never decreases
    (or is a single byte), its differential sequence has no literal 255,
    and its overflow bytes are even in number and fit beside the
    matrix. *)
Theorem single_frame_round_trip (matrix_audio : list Z) (c : Converter)
  (data : list Z) (fps_arg : Z) :
  valid_geometry c ->
  len matrix_audio = 512 ->
  512 <= bytes_per_frame_audio c ->
  0 < len data <= bytes_per_frame_total c ->
  all_bytes data ->
  let video := video_data c data 0 in
  let overflow := audio_data c data 0 in
  ((length video <= 1)%nat \/ (hd 0 video = 0 /\ nondecreasing video)) ->
  no_literal_255 (differential video) ->
  Z.even (len overflow) = true ->
  len overflow <= bytes_per_frame_audio c - 512 ->
  round_trip matrix_audio c data fps_arg = Ok (data, true).
Proof.
  intros Hvalid Hm Hbig Hlen Hb. cbv zeta. intros Hsorted Hlit Heven Hfit.
  rewrite (round_trip_single_frame matrix_audio c data fps_arg Hvalid Hm Hbig
             Hlen Hb). cbv zeta.
  destruct (single_frame c data Hvalid Hlen) as (Hn & Hf).
  destruct (frame_slices_bytes c data 0 Hb) as (Hvb & _).
  destruct (frame_sizes c data 0 Hvalid ltac:(lia)) as ((Hv0 & _) & _).
  rewrite <- (video_data_length c Hvalid) in Hv0.
  set (V := video_data c data 0) in *. set (ov := audio_data c data 0) in *.
  assert (HVne : differential V <> []).
  { intros E. apply (f_equal len) in E. rewrite differential_length in E.
    change (len []) with 0 in E. lia. }
  assert (Hvid : take (len V)
                   (differential_decode (hd 0 V)
                      (_decode_rle
                         (_apply_rle (differential V)
                          ++ zeros (len V - len (_apply_rle (differential V))))))
                 = V).
  { rewrite (proj2 (rle_stream_self_delimiting (differential V) [] _ Hlit)).
    rewrite <- (differential_length V) at 1.
    rewrite differential_decode_app by exact HVne.
    apply differential_round_trip_iff; assumption. }
  rewrite Hvid.
  apply Z.even_spec in Heven. destruct Heven as (h & Hh).
  replace (len ov / 2) with h
    by (rewrite Hh; symmetry; rewrite Z.mul_comm; apply Z.div_mul; lia).
  rewrite <- Hh. rewrite Z.min_l by lia. rewrite (take_all (len ov)) by lia.
  unfold V, ov. rewrite (video_audio_split c Hvalid), Hf.
  rewrite take_all by lia. rewrite Z.eqb_refl. reflexivity.
Qed.

Lemma single_frame_round_trip_witness :
  valid_geometry example_converter /\
  len example_matrix_audio = 512 /\
  all_bytes [0; 0; 0; 0; 0; 3; 9; 8; 7; 6] /\
  round_trip example_matrix_audio example_converter
    [0; 0; 0; 0; 0; 3; 9; 8; 7; 6] 30
  = Ok ([0; 0; 0; 0; 0; 3; 9; 8; 7; 6], true).
Proof.
  assert (Hb : all_bytes [0; 0; 0; 0; 0; 3; 9; 8; 7; 6])
    by (repeat constructor; lia).
  split; [repeat split|]. split; [reflexivity|]. split; [exact Hb|].
  apply (single_frame_round_trip example_matrix_audio example_converter
           [0; 0; 0; 0; 0; 3; 9; 8; 7; 6] 30 example_converter_valid
           eq_refl).
  - vm_compute. discriminate.
  - split; [reflexivity | vm_compute; discriminate].
  - exact Hb.
  - right.
    replace (video_data example_converter [0; 0; 0; 0; 0; 3; 9; 8; 7; 6] 0)
      with [0; 0; 0; 0; 0; 3] by (vm_compute; reflexivity).
    cbn. repeat split; lia.
  - unfold no_literal_255.
    replace (rle_runs
               (differential
                  (video_data example_converter
                     [0; 0; 0; 0; 0; 3; 9; 8; 7; 6] 0)))
      with [(0, 5%nat); (3, 1%nat)] by (vm_compute; reflexivity).
    repeat constructor; simpl; intros; try lia; discriminate.
  - reflexivity.
  - vm_compute. discriminate.
Defined.

(** X12.  In a file that fits one frame, an odd number of overflow bytes, or
    more of them than fit beside the matrix, is never read back in full:
    the decode pass writes fewer bytes than the file had and its size
    check fails. *)
Theorem single_frame_overflow_lost (matrix_audio : list Z) (c : Converter)
  (data : list Z) (fps_arg : Z) :
  valid_geometry c ->
  len matrix_audio = 512 ->
  512 <= bytes_per_frame_audio c ->
  0 < len data <= bytes_per_frame_total c ->
  all_bytes data ->
  Z.odd (len (audio_data c data 0)) = true \/
  bytes_per_frame_audio c - 512 < len (audio_data c data 0) ->
  exists out,
    round_trip matrix_audio c data fps_arg = Ok (out, false) /\
    len out < len data.
Proof.
  intros Hvalid Hm Hbig Hlen Hb Hbad.
  rewrite (round_trip_single_frame matrix_audio c data fps_arg Hvalid Hm Hbig
             Hlen Hb). cbv zeta.
  destruct (single_frame c data Hvalid Hlen) as (Hn & Hf).
  pose proof (f_equal len (video_audio_split c Hvalid data 0)) as Hsplit.
  rewrite len_app, Hf in Hsplit.
  set (V := video_data c data 0) in *. set (ov := audio_data c data 0) in *.
  pose proof (len_nonneg ov) as Hov0. pose proof (len_nonneg V) as HV0.
  match goal with |- exists out, Ok (?o, _) = _ /\ _ =>
    assert (Hshort : len o < len data) end.
  { rewrite len_take, len_app, !len_take.
    assert (Hh2 : 2 * (len ov / 2) <= len ov)
      by (pose proof (Z.mul_div_le (len ov) 2 ltac:(lia)); lia).
    destruct Hbad as [Hodd|Hbig'].
    - apply Z.odd_spec in Hodd. destruct Hodd as (h & Hh).
      assert (len ov / 2 = h)
        by (symmetry; apply (Z.div_unique_pos _ _ _ 1); lia).
      lia.
    - lia. }
  eexists. split; [|exact Hshort].
  f_equal. f_equal. apply Z.eqb_neq. lia.
Qed.

Lemma single_frame_overflow_lost_witness :
  valid_geometry example_converter /\
  len example_matrix_audio = 512 /\
  all_bytes [0; 0; 0; 0; 0; 3; 9; 8; 7] /\
  exists out,
    round_trip example_matrix_audio example_converter
      [0; 0; 0; 0; 0; 3; 9; 8; 7] 30 = Ok (out, false) /\
    len out < 9.
Proof.
  assert (Hb : all_bytes [0; 0; 0; 0; 0; 3; 9; 8; 7])
    by (repeat constructor; lia).
  split; [repeat split|]. split; [reflexivity|]. split; [exact Hb|].
  apply (single_frame_overflow_lost example_matrix_audio example_converter
           [0; 0; 0; 0; 0; 3; 9; 8; 7] 30 example_converter_valid eq_refl).
  - vm_compute. discriminate.
  - split; [reflexivity | vm_compute; discriminate].
  - exact Hb.
  - left. reflexivity.
Defined.

(** ** The two converters side by side *)

Lemma ceil_div_antitone (a b b' : Z) :
  0 <= a -> 0 < b -> b <= b' -> ceil_div a b' <= ceil_div a b.
Proof.
  intros Ha Hb Hbb.
  pose proof (ceil_div_spec a b Hb) as H1.
  pose proof (ceil_div_spec a b' ltac:(lia)) as H2.
  pose proof (ceil_div_nonneg a b Ha Hb) as H3.
  nia.
Qed.

(** X13.  For the same frame size the converter with audio never writes more
    frames than the basic one, the comparison [compare_encoders] prints:
    its frame holds the audio capacity on top of the video capacity. *)
Theorem advanced_frames_le_basic (c : Converter) (input_file : pystr)
  (data : list Z) :
  valid_geometry c ->
  exists bdir,
    file_to_frames {| basic_width := width c; basic_height := height c |}
      input_file data
    = Ok bdir /\
    bytes_per_frame {| basic_width := width c; basic_height := height c |}
    = bytes_per_frame_video c /\
    encode_num_frames c data <= basic_num_frames (basic_metadata bdir).
Proof.
  intros Hvalid.
  pose proof (capacities_positive c Hvalid) as (Hv & _ & Ha & _).
  assert (Hbpf : bytes_per_frame
                   {| basic_width := width c; basic_height := height c |}
                 = bytes_per_frame_video c) by reflexivity.
  unfold file_to_frames. cbv zeta. rewrite Hbpf.
  destruct (Z.eqb_spec (bytes_per_frame_video c) 0) as [Hz|_]; [lia|].
  eexists. split; [reflexivity|]. split; [reflexivity|].
  cbn [basic_metadata basic_num_frames]. unfold encode_num_frames.
  apply ceil_div_antitone;
    [apply len_nonneg | exact Hv | unfold bytes_per_frame_total; lia].
Qed.

Lemma advanced_frames_le_basic_witness :
  valid_geometry example_converter /\
  exists bdir,
    file_to_frames {| basic_width := 2; basic_height := 1 |}
      (lit "in/a.bin") example_data
    = Ok bdir /\
    encode_num_frames example_converter example_data
    <= basic_num_frames (basic_metadata bdir).
Proof.
  split; [repeat split|].
  destruct (advanced_frames_le_basic example_converter (lit "in/a.bin")
              example_data example_converter_valid) as (bdir & H1 & _ & H3).
  exists bdir. split; [exact H1 | exact H3].
Defined.
